(** * Grover circuit builder: a shallow embedding of [src/logic.py] and of
    [calculate_optimal_iterations] from [main.py].

    The Python code drives two libraries: Qiskit's [QuantumCircuit] (a mutable
    list of placed operations) and the [math] module over IEEE-754 doubles.
    Both are written out below as far as the code uses them: circuit methods
    pass the circuit explicitly and return it in the exception monad
    [result]; doubles are Rocq's primitive binary64 floats. *)

From Stdlib Require Import ZArith NArith List String Ascii Bool Lia.
From Stdlib Require Import Floats.
From Stdlib Require Import Reals Lra FunctionalExtensionality.
From Stdlib Require Import Sorted Permutation.
From Stdlib Require Import DecimalString DecimalNat.
Import ListNotations.

Set Implicit Arguments.
Set Warnings "-register-all".
Set Warnings "-notation-overridden".
Set Warnings "-ambiguous-paths".
Set Warnings "-overwriting-delimiting-key".

(* ================================================================== *)
(** ** Python exceptions and the exception monad *)

(** The exception classes the modelled code can raise: [ValueError] (the
    [raise] of [__init__], and [math]'s "math domain error"),
    [ZeroDivisionError] and [OverflowError] (float arithmetic), and Qiskit's
    [CircuitError]. *)
Inductive exn : Type :=
| ValueError
| ZeroDivisionError
| OverflowError
| CircuitError.

Inductive result (A : Type) : Type :=
| Ok (a : A)
| Raise (e : exn).
Arguments Ok {A} a.
Arguments Raise {A} e.

Definition bind {A B : Type} (r : result A) (k : A -> result B) : result B :=
  match r with
  | Ok a => k a
  | Raise e => Raise e
  end.

Declare Scope py_scope.
Delimit Scope py_scope with py.
Notation "x <- e ;; k" := (bind e (fun x => k))
  (at level 61, e at next level, right associativity) : py_scope.
Open Scope py_scope.

(** [for x in xs: st = body(x, st)], stopping at the first exception. *)
Fixpoint for_each {A S : Type} (xs : list A) (body : A -> S -> result S) (st : S)
  : result S :=
  match xs with
  | [] => Ok st
  | x :: xs' => st' <- body x st ;; for_each xs' body st'
  end.

(** Python's [range(stop)] over the integers: empty when [stop <= 0]. *)
Definition range (stop : Z) : list Z :=
  map Z.of_nat (seq 0 (Z.to_nat stop)).

(** [enumerate(xs)]. *)
Definition enumerate {A : Type} (xs : list A) : list (Z * A) :=
  combine (range (Z.of_nat (List.length xs))) xs.

(** [reversed(s)] of a string, as the list of its characters. *)
Definition reversed (s : string) : list ascii :=
  rev (list_ascii_of_string s).

(* ================================================================== *)
(** ** Qiskit's circuit data, as far as [logic.py] uses it *)

Module Qiskit.

(** A placed operation: the operation and the (resolved) positions of the
    quantum and classical lines it acts on. *)
Record CircuitInstruction (Op : Type) : Type := mkCI {
  operation : Op;
  qubits : list nat;
  clbits : list nat
}.
Arguments mkCI {Op} operation qubits clbits.

(** The operations the builder places.  [MCXGate k] is the X gate with [k]
    controls, placed on the controls followed by the target (Qiskit picks
    the classes CXGate and CCXGate for k = 1, 2: the same operation).
    [Instruction] is what [to_instruction] returns: a named operation whose
    definition is the body of the circuit it was made from. *)
Inductive Operation : Type :=
| XGate
| HGate
| MCXGate (num_ctrl_qubits : nat)
| Measure
| Instruction (name : string) (num_qubits num_clbits : nat)
    (definition : list (CircuitInstruction Operation)).

Record QuantumCircuit : Type := mkQC {
  num_qubits : nat;
  num_clbits : nat;
  data : list (CircuitInstruction Operation)
}.

(** [QuantumCircuit(n)] and [QuantumCircuit(n, m)]: registers of the given
    sizes and no operation; a negative size is refused. *)
Definition new (n m : Z) : result QuantumCircuit :=
  if ((n <? 0) || (m <? 0))%Z then Raise CircuitError
  else Ok (mkQC (Z.to_nat n) (Z.to_nat m) []).

(** An integer line specifier is resolved like a Python list index into the
    register of [size] lines: [-size <= i < size], negative counting from
    the end; anything else is a [CircuitError]. *)
Definition bit_argument (size : nat) (i : Z) : result nat :=
  if ((0 <=? i) && (i <? Z.of_nat size))%Z then Ok (Z.to_nat i)
  else if ((- Z.of_nat size <=? i) && (i <? 0))%Z
       then Ok (Z.to_nat (Z.of_nat size + i))
       else Raise CircuitError.

Fixpoint bit_arguments (size : nat) (l : list Z) : result (list nat) :=
  match l with
  | [] => Ok []
  | i :: l' =>
      q <- bit_argument size i ;;
      qs <- bit_arguments size l' ;;
      Ok (q :: qs)
  end.

Definition push (qc : QuantumCircuit) (ci : CircuitInstruction Operation)
  : QuantumCircuit :=
  mkQC (num_qubits qc) (num_clbits qc) (data qc ++ [ci]).

Fixpoint has_duplicates (l : list nat) : bool :=
  match l with
  | [] => false
  | q :: l' => existsb (Nat.eqb q) l' || has_duplicates l'
  end.

(** [qc.x(q)] and [qc.h(q)] with one integer line. *)
Definition x (q : Z) (qc : QuantumCircuit) : result QuantumCircuit :=
  q' <- bit_argument (num_qubits qc) q ;;
  Ok (push qc (mkCI XGate [q'] [])).

Definition h (q : Z) (qc : QuantumCircuit) : result QuantumCircuit :=
  q' <- bit_argument (num_qubits qc) q ;;
  Ok (push qc (mkCI HGate [q'] [])).

(** [qc.x(range(..))] and [qc.h(range(..))]: a single-line gate given
    several lines is placed once on each, in the order given.  Given no line
    at all (an empty range) the gate is refused: "One or more of the
    arguments are empty". *)
Definition x_each (qs : list Z) (qc : QuantumCircuit) : result QuantumCircuit :=
  match qs with
  | [] => Raise CircuitError
  | _ => for_each qs x qc
  end.

Definition h_each (qs : list Z) (qc : QuantumCircuit) : result QuantumCircuit :=
  match qs with
  | [] => Raise CircuitError
  | _ => for_each qs h qc
  end.

(** [qc.mcx(control_qubits, target_qubit)]: the X gate with
    [len(control_qubits)] controls is placed on the controls followed by the
    target, which must be valid and pairwise distinct lines.  [logic.py]
    has no test of its own on the control list, and an empty one is
    accepted: the gate placed then has no control and is an X on the
    target.  ([logic.py] pins no release of Qiskit; releases up to 2.3.1
    refused an empty control list with a [CircuitError], the current one
    does not, and the model follows the current one.) *)
Definition mcx (control_qubits : list Z) (target_qubit : Z) (qc : QuantumCircuit)
  : result QuantumCircuit :=
  let num_ctrl_qubits := List.length control_qubits in
  cs <- bit_arguments (num_qubits qc) control_qubits ;;
  t <- bit_argument (num_qubits qc) target_qubit ;;
  if has_duplicates (cs ++ [t]) then Raise CircuitError
  else Ok (push qc (mkCI (MCXGate num_ctrl_qubits) (cs ++ [t]) [])).

(** The label a circuit gets when none is given.  (Qiskit appends a running
    instance number; both operators of [logic.py] overwrite the label right
    after [to_instruction].) *)
Definition default_name : string := "circuit".

(** [qc.to_instruction()]: the circuit packaged as one operation. *)
Definition to_instruction (qc : QuantumCircuit) : Operation :=
  Instruction default_name (num_qubits qc) (num_clbits qc) (data qc).

(** [op.name = s]. *)
Definition set_name (op : Operation) (s : string) : Operation :=
  match op with
  | Instruction _ nq nc body => Instruction s nq nc body
  | _ => op
  end.

Definition op_num_qubits (op : Operation) : nat :=
  match op with
  | XGate | HGate | Measure => 1
  | MCXGate k => k + 1
  | Instruction _ nq _ _ => nq
  end.

Definition op_num_clbits (op : Operation) : nat :=
  match op with
  | Measure => 1
  | Instruction _ _ nc _ => nc
  | _ => 0
  end.

(** [qc.append(op, qargs)]: the lines are resolved, their number must be
    the operation's, and no line may repeat. *)
Definition append (op : Operation) (qargs : list Z) (qc : QuantumCircuit)
  : result QuantumCircuit :=
  qs <- bit_arguments (num_qubits qc) qargs ;;
  if negb (List.length qs =? op_num_qubits op)%nat
     || negb (0 =? op_num_clbits op)%nat
     || has_duplicates qs
  then Raise CircuitError
  else Ok (push qc (mkCI op qs [])).

(** [qc.measure(qubits, clbits)] with two sequences of equal length: line
    [qubits[i]] is measured into classical line [clbits[i]], one placement
    per pair. *)
Definition measure (qargs cargs : list Z) (qc : QuantumCircuit)
  : result QuantumCircuit :=
  qs <- bit_arguments (num_qubits qc) qargs ;;
  cs <- bit_arguments (num_clbits qc) cargs ;;
  if negb (List.length qs =? List.length cs)%nat then Raise CircuitError
  else Ok (fold_left (fun c qc' => push c (mkCI Measure [fst qc'] [snd qc']))
                     (combine qs cs) qc).

End Qiskit.

(* ================================================================== *)
(** ** [class GroverAlgorithm] of [src/logic.py] *)

Module GroverAlgorithm.
Import Qiskit.

(** The attributes [self.n] and [self.target]. *)
Record self : Type := mkSelf {
  n : Z;
  target : string
}.

(** [__init__]: the one validation is the length test. *)
Definition __init__ (n_qubits : Z) (target_state : string) : result self :=
  if negb (Z.of_nat (String.length target_state) =? n_qubits)%Z
  then Raise ValueError
  else Ok (mkSelf n_qubits target_state).

(** The loop of steps 1 and 3 of [create_oracle]:
    [for i, bit in enumerate(reversed(self.target)): if bit == '0': qc.x(i)]. *)
Definition flip_zero_bits (s : self) (qc : QuantumCircuit) : result QuantumCircuit :=
  for_each (enumerate (reversed (target s)))
    (fun '(i, bit) qc => if Ascii.eqb bit "0" then x i qc else Ok qc)
    qc.

Definition create_oracle (s : self) : result Operation :=
  qc <- new (n s) 0 ;;
  qc <- flip_zero_bits s qc ;;
  qc <- h (n s - 1) qc ;;
  qc <- mcx (range (n s - 1)) (n s - 1) qc ;;
  qc <- h (n s - 1) qc ;;
  qc <- flip_zero_bits s qc ;;
  let oracle_gate := to_instruction qc in
  let oracle_gate := set_name oracle_gate "Oracle (Z_f)" in
  Ok oracle_gate.

Definition create_diffuser (s : self) : result Operation :=
  qc <- new (n s) 0 ;;
  qc <- h_each (range (n s)) qc ;;
  qc <- x_each (range (n s)) qc ;;
  qc <- h (n s - 1) qc ;;
  qc <- mcx (range (n s - 1)) (n s - 1) qc ;;
  qc <- h (n s - 1) qc ;;
  qc <- x_each (range (n s)) qc ;;
  qc <- h_each (range (n s)) qc ;;
  let diffuser_gate := to_instruction qc in
  let diffuser_gate := set_name diffuser_gate "Diffuser (D)" in
  Ok diffuser_gate.

Definition build_circuit (s : self) (iterations : Z) : result QuantumCircuit :=
  qc <- new (n s) (n s) ;;
  qc <- h_each (range (n s)) qc ;;
  oracle <- create_oracle s ;;
  diffuser <- create_diffuser s ;;
  qc <- for_each (range iterations)
          (fun _ qc =>
             qc <- append oracle (range (n s)) qc ;;
             append diffuser (range (n s)) qc)
          qc ;;
  qc <- measure (range (n s)) (range (n s)) qc ;;
  Ok qc.

End GroverAlgorithm.

(* ================================================================== *)
(** ** The builders with the names Qiskit gives the circuits *)

(** A circuit created without a name, as all three of [logic.py] are, gets
    its name from Qiskit: "circuit-<k>", [k] taken from a process-wide
    count of circuits; [to_instruction] passes the circuit's name on to the
    operation.  These names are the one thing outside the object that the
    builders depend on.  [GroverAlgorithm] above leaves the circuits' names
    out; here the same three methods are written with them, line by line
    as above, as state transformers over the names still to come. *)
Module Named.
Import Qiskit GroverAlgorithm.

Record NamedCircuit : Type := mkNamed {
  name : string;
  circuit : QuantumCircuit
}.

(** The names Qiskit gives the anonymous circuits the program creates from
    now on, in the order of their creation.  (The count behind them also
    moves when the library creates circuits of its own, so which numbers
    the program's circuits get is the library's business.) *)
Definition supply : Type := nat -> string.

(** A computation that draws names and may raise. *)
Definition M (A : Type) : Type := supply -> result A * supply.

Definition ret {A : Type} (a : A) : M A := fun names => (Ok a, names).

Definition bindM {A B : Type} (m : M A) (k : A -> M B) : M B :=
  fun names =>
    match m names with
    | (Ok a, names') => k a names'
    | (Raise e, names') => (Raise e, names')
    end.

Declare Scope named_scope.
Delimit Scope named_scope with named.
Notation "x <- e ;; k" := (bindM e (fun x => k))
  (at level 61, e at next level, right associativity) : named_scope.

(** The name Qiskit forms from the count [k]. *)
Definition anonymous (k : nat) : string :=
  "circuit-" ++ NilEmpty.string_of_uint (Nat.to_uint k).

(** The names to come when the count stands at [k] and moves by [step] from
    one circuit of the program to the next. *)
Definition numbered (k step : nat) : supply :=
  fun i => anonymous (k + step * i).

(** [QuantumCircuit(n)] and [QuantumCircuit(n, m)]: the circuit gets the
    next name. *)
Definition new (n m : Z) : M NamedCircuit :=
  fun names =>
    match Qiskit.new n m with
    | Ok qc => (Ok (mkNamed (names 0%nat) qc), fun i => names (S i))
    | Raise e => (Raise e, names)
    end.

(** A circuit method: it changes the placements and leaves the circuit's
    name alone. *)
Definition on (method : QuantumCircuit -> result QuantumCircuit)
    (qc : NamedCircuit) : M NamedCircuit :=
  fun names =>
    match method (circuit qc) with
    | Ok qc' => (Ok (mkNamed (name qc) qc'), names)
    | Raise e => (Raise e, names)
    end.

(** [qc.to_instruction()]: the operation is named after the circuit. *)
Definition to_instruction (qc : NamedCircuit) : Operation :=
  Instruction (name qc) (num_qubits (circuit qc)) (num_clbits (circuit qc))
    (data (circuit qc)).

Definition create_oracle (s : self) : M Operation :=
  (qc <- new (n s) 0 ;;
   qc <- on (flip_zero_bits s) qc ;;
   qc <- on (h (n s - 1)) qc ;;
   qc <- on (mcx (range (n s - 1)) (n s - 1)) qc ;;
   qc <- on (h (n s - 1)) qc ;;
   qc <- on (flip_zero_bits s) qc ;;
   let oracle_gate := to_instruction qc in
   let oracle_gate := set_name oracle_gate "Oracle (Z_f)" in
   ret oracle_gate)%named.

Definition create_diffuser (s : self) : M Operation :=
  (qc <- new (n s) 0 ;;
   qc <- on (h_each (range (n s))) qc ;;
   qc <- on (x_each (range (n s))) qc ;;
   qc <- on (h (n s - 1)) qc ;;
   qc <- on (mcx (range (n s - 1)) (n s - 1)) qc ;;
   qc <- on (h (n s - 1)) qc ;;
   qc <- on (x_each (range (n s))) qc ;;
   qc <- on (h_each (range (n s))) qc ;;
   let diffuser_gate := to_instruction qc in
   let diffuser_gate := set_name diffuser_gate "Diffuser (D)" in
   ret diffuser_gate)%named.

Definition build_circuit (s : self) (iterations : Z) : M NamedCircuit :=
  (qc <- new (n s) (n s) ;;
   qc <- on (h_each (range (n s))) qc ;;
   oracle <- create_oracle s ;;
   diffuser <- create_diffuser s ;;
   qc <- on (for_each (range iterations)
               (fun _ qc =>
                  (qc <- append oracle (range (n s)) qc ;;
                   append diffuser (range (n s)) qc)%py))
            qc ;;
   qc <- on (measure (range (n s)) (range (n s))) qc ;;
   ret qc)%named.

(** What a result says about the circuit's structure: its lines and its
    placements, the operators in them with their names and bodies; the
    circuit's own name is left out. *)
Definition structure (r : result NamedCircuit) : result QuantumCircuit :=
  match r with
  | Ok qc => Ok (circuit qc)
  | Raise e => Raise e
  end.

End Named.

(* ================================================================== *)
(** ** [calculate_optimal_iterations] of [src/main.py] *)

Module Main.

(** A Python number as this function meets them: [2**n_qubits] is an [int]
    for a non-negative exponent and a [float] for a negative one. *)
Inductive number : Type :=
| PyInt (z : Z)
| PyFloat (f : float).

(** [math.asin] is the C library's; its values are not computed here.  A
    computation either finishes (with a value or an exception) or calls
    the library's arc sine on [x] and goes on with the answer. *)
Inductive libm (A : Type) : Type :=
| Done (r : result A)
| Asin (x : float) (k : float -> libm A).
Arguments Done {A} r.
Arguments Asin {A} x k.

(** Running a computation against a given arc sine. *)
Fixpoint run {A : Type} (asin : float -> float) (c : libm A) : result A :=
  match c with
  | Done r => r
  | Asin x k => run asin (k (asin x))
  end.

(** The exception raised before the first call of the arc sine, if any. *)
Definition raised_before_asin {A : Type} (c : libm A) : option exn :=
  match c with
  | Done (Raise e) => Some e
  | _ => None
  end.

(** [m * 2^e] rounded to the nearest double, ties to even; overflow is an
    [OverflowError], as in CPython's conversions from [int]. *)
Definition round_to_float (m e : Z) : result float :=
  match binary_normalize prec emax m e false with
  | S754_infinity _ => Raise OverflowError
  | f => Ok (SF2Prim f)
  end.

(** [float(a)] for an [int]. *)
Definition int_to_float (a : Z) : result float := round_to_float a 0.

(** [a / b] on two [int]s: the correctly rounded quotient.  The quotient is
    taken with at least 55 significant bits and a sticky bit for a non-zero
    remainder, then rounded once. *)
Definition int_true_divide (a b : Z) : result float :=
  if (b =? 0)%Z then Raise ZeroDivisionError
  else if (a =? 0)%Z then Ok (if (b <? 0)%Z then neg_zero else zero)
  else
    let negate := xorb (a <? 0)%Z (b <? 0)%Z in
    let a' := Z.abs a in
    let b' := Z.abs b in
    let k := Z.max 0 (Z.log2 b' - Z.log2 a' + 56) in
    let q := (a' * 2 ^ k / b')%Z in
    let sticky := if ((a' * 2 ^ k) mod b' =? 0)%Z then 0%Z else 1%Z in
    let m := (2 * q + sticky)%Z in
    round_to_float (if negate then (- m)%Z else m) (- k - 1).

(** [2 ** n]: an [int] when [n >= 0]; otherwise the float power
    [float(2) ** float(n)], which is the exact power of two, or [0.0] once
    it underflows. *)
Definition pow2 (n : Z) : result number :=
  if (0 <=? n)%Z then Ok (PyInt (2 ^ n))
  else
    _ <- int_to_float n ;;
    Ok (PyFloat (Z.ldexp one n)).

(** [a / N] for an [int] [a]. *)
Definition truediv (a : Z) (N : number) : result float :=
  match N with
  | PyInt b => int_true_divide a b
  | PyFloat b =>
      x <- int_to_float a ;;
      if (b =? 0)%float then Raise ZeroDivisionError else Ok (x / b)%float
  end.

(** The [math] module's wrapper around a C function of one argument: a NaN
    result from a non-NaN argument, or an infinite one from a finite
    argument, is a [ValueError] ("math domain error"). *)
Definition math_1 (x r : float) : result float :=
  if is_nan r && negb (is_nan x) then Raise ValueError
  else if is_infinity r && is_finite x then Raise ValueError
  else Ok r.

Definition math_sqrt (x : float) : result float := math_1 x (PrimFloat.sqrt x).

Definition math_asin (x : float) : libm float :=
  Asin x (fun r => Done (math_1 x r)).

(** [math.pi]. *)
Definition pi : float := 0x1.921fb54442d18p+1%float.

(** [a / b] on floats. *)
Definition float_div (a b : float) : result float :=
  if (b =? 0)%float then Raise ZeroDivisionError else Ok (a / b)%float.

(** The integer nearest to [m * 2^e], ties to the even one. *)
Definition round_half_even (m e : Z) : Z :=
  if (0 <=? e)%Z then (m * 2 ^ e)%Z
  else
    let d := (2 ^ (- e))%Z in
    let q := (m / d)%Z in
    match (2 * (m mod d) ?= d)%Z with
    | Lt => q
    | Gt => (q + 1)%Z
    | Eq => if Z.even q then q else (q + 1)%Z
    end.

(** [round(x)] of a float, one argument: an [int]. *)
Definition py_round (x : float) : result Z :=
  match Prim2SF x with
  | S754_nan => Raise ValueError
  | S754_infinity _ => Raise OverflowError
  | S754_zero _ => Ok 0%Z
  | S754_finite s m e =>
      let v := round_half_even (Zpos m) e in
      Ok (if s then (- v)%Z else v)
  end.

Definition calculate_optimal_iterations (n_qubits n_solutions : Z) : libm Z :=
  match (N <- pow2 n_qubits ;;
         ratio <- truediv n_solutions N ;;
         math_sqrt ratio) with
  | Raise e => Done (Raise e)
  | Ok root =>
      Asin root (fun r =>
        Done (theta <- math_1 root r ;;
              quarter <- float_div pi (4 * theta)%float ;;
              py_round (quarter - 0.5)%float))
  end.

End Main.

(* ================================================================== *)
(** ** What the placed gates do to a register state

    The builder never runs a circuit; the self-inverse property of its two
    operators is about the unitaries of the gates it places, which are the
    standard ones of Qiskit's XGate, HGate and MCXGate.  A state of the
    register gives every basis state a complex amplitude; basis states are
    numbered so that bit [q] of the number is the value of line [q] (the
    little-endian convention of the target string).  X, H and the
    multi-controlled X have real matrices, so they act on the real and the
    imaginary part alike. *)

Module Semantics.
Import Qiskit.

Definition amplitude : Type := (R * R)%type.
Definition State : Type := N -> amplitude.

Definition Cplus (a b : amplitude) : amplitude :=
  (fst a + fst b, snd a + snd b)%R.

Definition Cscale (r : R) (a : amplitude) : amplitude :=
  (r * fst a, r * snd a)%R.

(** Basis state [b] with line [q] flipped, and with line [q] set to [v]. *)
Definition flip (q : nat) (b : N) : N := N.lxor b (2 ^ N.of_nat q).

Definition setb (v : bool) (q : nat) (b : N) : N :=
  if v then N.setbit b (N.of_nat q) else N.clearbit b (N.of_nat q).

Definition line (b : N) (q : nat) : bool := N.testbit b (N.of_nat q).

(** X on line [q]: the amplitudes of [b] and of [b] with line [q] flipped
    are exchanged. *)
Definition X_on (q : nat) (psi : State) : State :=
  fun b => psi (flip q b).

(** Hadamard on line [q]:
    [|0> -> (|0> + |1>)/sqrt 2], [|1> -> (|0> - |1>)/sqrt 2]. *)
Definition H_on (q : nat) (psi : State) : State :=
  fun b =>
    Cscale (/ sqrt 2)
      (Cplus (psi (setb false q b))
             (Cscale (if line b q then -1 else 1) (psi (setb true q b)))).

(** X on line [t] where every line of [cs] is 1, nothing elsewhere. *)
Definition MCX_on (cs : list nat) (t : nat) (psi : State) : State :=
  fun b => if forallb (line b) cs then psi (flip t b) else psi b.

(** The body of a composite operation placed on [qargs]: its placements in
    order, line [j] of the body being line [qargs[j]] of the circuit. *)
Definition apply_body (apply : Operation -> list nat -> State -> option State)
    (qargs : list nat)
  : list (CircuitInstruction Operation) -> State -> option State :=
  fix go body psi :=
    match body with
    | [] => Some psi
    | ci :: rest =>
        match apply (operation ci)
                    (map (fun j => nth j qargs 0%nat) (qubits ci)) psi with
        | Some psi' => go rest psi'
        | None => None
        end
    end.

(** The state after a unitary operation placed on the lines [qargs];
    [None] for a measurement and for a placement on the wrong number of
    lines. *)
Fixpoint apply (op : Operation) (qargs : list nat) (psi : State)
  : option State :=
  match op with
  | XGate => match qargs with [q] => Some (X_on q psi) | _ => None end
  | HGate => match qargs with [q] => Some (H_on q psi) | _ => None end
  | MCXGate k =>
      if (List.length qargs =? k + 1)%nat
      then Some (MCX_on (removelast qargs) (last qargs 0%nat) psi)
      else None
  | Measure => None
  | Instruction _ nq nc body =>
      if ((List.length qargs =? nq)%nat && (nc =? 0)%nat)%bool
      then apply_body apply qargs body psi
      else None
  end.

End Semantics.

(* ================================================================== *)
(** ** The gate sequences as the specification words them *)

Module Spec.
Import Qiskit.

(** The target bit of line [i]: the string read from its right end. *)
Definition target_bit (target : string) (i : nat) : option ascii :=
  String.get (String.length target - 1 - i) target.

Definition is_zero_bit (target : string) (i : nat) : bool :=
  match target_bit target i with
  | Some c => Ascii.eqb c "0"
  | None => false
  end.

Definition on_line (op : Operation) (q : nat) : CircuitInstruction Operation :=
  mkCI op [q] [].

Definition on_every_line (op : Operation) (n : nat)
  : list (CircuitInstruction Operation) :=
  map (on_line op) (seq 0 n).

(** An X on every line whose target bit is '0'. *)
Definition bit_flips (n : nat) (target : string)
  : list (CircuitInstruction Operation) :=
  map (on_line XGate) (filter (is_zero_bit target) (seq 0 n)).

(** Hadamard on line n-1; X controlled by lines 0..n-2 on line n-1;
    Hadamard on line n-1. *)
Definition sandwich (n : nat) : list (CircuitInstruction Operation) :=
  [ on_line HGate (n - 1);
    mkCI (MCXGate (n - 1)) (seq 0 (n - 1) ++ [(n - 1)%nat]) [];
    on_line HGate (n - 1) ].

Definition oracle_body (n : nat) (target : string)
  : list (CircuitInstruction Operation) :=
  bit_flips n target ++ sandwich n ++ bit_flips n target.

Definition oracle (n : nat) (target : string) : Operation :=
  Instruction "Oracle (Z_f)" n 0 (oracle_body n target).

Definition diffuser_body (n : nat) : list (CircuitInstruction Operation) :=
  on_every_line HGate n ++ on_every_line XGate n ++ sandwich n
    ++ on_every_line XGate n ++ on_every_line HGate n.

Definition diffuser (n : nat) : Operation :=
  Instruction "Diffuser (D)" n 0 (diffuser_body n).

(** One round: the oracle across all lines, then the diffuser. *)
Definition round (n : nat) (target : string)
  : list (CircuitInstruction Operation) :=
  [ mkCI (oracle n target) (seq 0 n) [];
    mkCI (diffuser n) (seq 0 n) [] ].

Definition measurements (n : nat) : list (CircuitInstruction Operation) :=
  map (fun i => mkCI Measure [i] [i]) (seq 0 n).

(** Hadamard on every line, [k] rounds, every line measured into the
    classical line of the same index. *)
Definition circuit (n : nat) (target : string) (k : nat) : QuantumCircuit :=
  mkQC n n
    (on_every_line HGate n ++ List.concat (repeat (round n target) k)
       ++ measurements n).

End Spec.

(* ================================================================== *)
(** ** Auxiliary notions used in the statements and proofs *)

(** The circuit [qc] with the placements [l] added at its end. *)
Definition extend (qc : Qiskit.QuantumCircuit)
    (l : list (Qiskit.CircuitInstruction Qiskit.Operation)) : Qiskit.QuantumCircuit :=
  Qiskit.mkQC (Qiskit.num_qubits qc) (Qiskit.num_clbits qc) (Qiskit.data qc ++ l).

(** The lines [0 .. n-1] as [append] resolves [range(n)]. *)
Definition all_lines (n : Z) : list nat := seq 0 (Z.to_nat n).

(** A single-line gate applied to each line of [qs] in turn. *)
Definition layer (g : nat -> Semantics.State -> Semantics.State) (qs : list nat)
    (psi : Semantics.State) : Semantics.State :=
  fold_left (fun p q => g q p) qs psi.

(** The multi-controlled Z on [n] lines as the H / MCX / H sandwich. *)
Definition mcz (n : nat) (psi : Semantics.State) : Semantics.State :=
  Semantics.H_on (n - 1)
    (Semantics.MCX_on (seq 0 (n - 1)) (n - 1) (Semantics.H_on (n - 1) psi)).

(** The amplitude with its sign changed. *)
Definition Copp (a : Semantics.amplitude) : Semantics.amplitude :=
  (- fst a, - snd a)%R.

(** Basis state [b] with every line of [qs] flipped. *)
Definition flips (qs : list nat) (b : N) : N :=
  fold_right Semantics.flip b qs.

(** Basis state [b] is the target: on every line [i < n] its bit is the
    target bit of that line ('0' read as 0, any other character as 1). *)
Definition encodes (t : string) (n : nat) (b : N) : bool :=
  forallb (fun i => Bool.eqb (Semantics.line b i) (negb (Spec.is_zero_bit t i)))
          (seq 0 n).

(** [r] is the double [v] or one of its two neighbours: an arc sine accurate
    to the last bit. *)
Definition within_one_ulp (v r : float) : Prop :=
  r = next_down v \/ r = v \/ r = next_up v.

(** The doubles nearest to the arc sines of 1, 1/2 and 1/4. *)
Definition asin_1 : float := 0x1.921fb54442d18p+0%float.
Definition asin_half : float := 0x1.0c152382d7366p-1%float.
Definition asin_quarter : float := 0x1.02be9ce0b87cdp-2%float.

(** An arc sine given by a table at the four arguments the examples need. *)
Definition table_asin (x : float) : float :=
  if (x =? 1)%float then asin_1
  else if (x =? 0.5)%float then asin_half
  else if (x =? 0.25)%float then asin_quarter
  else x.

(* ================================================================== *)
(** ** Notions for the further properties of [logic.py] *)

(** A target character as the oracle loop reads it: '0', or not '0'. *)
Definition as_bit (c : ascii) : ascii :=
  if Ascii.eqb c "0" then "0"%char else "1"%char.

Fixpoint as_bits (t : string) : string :=
  match t with
  | EmptyString => EmptyString
  | String c r => String (as_bit c) (as_bits r)
  end.

(** The target of [n] characters '0'. *)
Fixpoint zeros (n : nat) : string :=
  match n with
  | O => EmptyString
  | S m => String "0" (zeros m)
  end.

(** The sum of a list of amplitudes. *)
Definition Csum (l : list Semantics.amplitude) : Semantics.amplitude :=
  fold_right Semantics.Cplus (0%R, 0%R) l.

(** The basis states that agree with [b] on every line from [n] on: the
    [2^n] values of the register's lines [0 .. n-1]. *)
Fixpoint assignments (n : nat) (b : N) : list N :=
  match n with
  | O => [b]
  | S m => assignments m (Semantics.setb false m b)
           ++ assignments m (Semantics.setb true m b)
  end.

(** The mean amplitude of [psi] over the register's [2^n] basis states. *)
Definition mean (n : nat) (psi : Semantics.State) : Semantics.State :=
  fun b => Semantics.Cscale (/ 2 ^ n) (Csum (map psi (assignments n b))).

(** Averaging over the two values of line [q], and keeping the amplitudes
    where line [q] is 0 only. *)
Definition avg_on (q : nat) (psi : Semantics.State) : Semantics.State :=
  fun b =>
    Semantics.Cscale (/ 2)
      (Semantics.Cplus (psi (Semantics.setb false q b))
                       (psi (Semantics.setb true q b))).

Definition zero_on (q : nat) (psi : Semantics.State) : Semantics.State :=
  fun b => if Semantics.line b q then (0%R, 0%R) else psi b.

(** [psi + k * phi], amplitude by amplitude. *)
Definition axpy (k : R) (phi psi : Semantics.State) : Semantics.State :=
  fun b => Semantics.Cplus (psi b) (Semantics.Cscale k (phi b)).

(* ================================================================== *)
(** ** Notions for running the assembled circuit *)

(** The register's starting state: all lines 0. *)
Definition ket0 : Semantics.State :=
  fun b => if (b =? 0)%N then (1%R, 0%R) else (0%R, 0%R).

(** [b] is a basis state of the [n]-line register: no line from [n] on is
    set (that is, [b < 2^n]). *)
Definition in_register (n : nat) (b : N) : Prop :=
  forall q, (n <= q)%nat -> Semantics.line b q = false.

(** The probability of reading basis state [b] when [psi] is measured. *)
Definition probability (psi : Semantics.State) (b : N) : R :=
  (fst (psi b) * fst (psi b) + snd (psi b) * snd (psi b))%R.

(** The placements of a circuit up to its first measurement. *)
Fixpoint unitary_prefix (l : list (Qiskit.CircuitInstruction Qiskit.Operation))
  : list (Qiskit.CircuitInstruction Qiskit.Operation) :=
  match l with
  | [] => []
  | ci :: rest =>
      match Qiskit.operation ci with
      | Qiskit.Measure => []
      | _ => ci :: unitary_prefix rest
      end
  end.

(** The state the measurements of [qc] find, from the starting state [psi]. *)
Definition state_before_measurement (qc : Qiskit.QuantumCircuit)
    (psi : Semantics.State) : option Semantics.State :=
  Semantics.apply_body Semantics.apply (seq 0 (Qiskit.num_qubits qc))
    (unitary_prefix (Qiskit.data qc)) psi.

(** One Grover round on a state with amplitude [a] at the target and [o] at
    every other basis state of the register: the oracle changes the sign of
    [a]; the diffuser takes twice the mean away. *)
Definition grover_round (n : nat)
    (ao : Semantics.amplitude * Semantics.amplitude)
  : Semantics.amplitude * Semantics.amplitude :=
  let a := fst ao in
  let o := snd ao in
  let m := Semantics.Cscale (/ 2 ^ n)
             (Semantics.Cplus (Copp a) (Semantics.Cscale (2 ^ n - 1) o)) in
  (Semantics.Cplus (Copp a) (Semantics.Cscale (-2) m),
   Semantics.Cplus o (Semantics.Cscale (-2) m)).

(** The amplitudes (target, others) after [k] rounds from the uniform
    superposition. *)
Definition amplitudes (n k : nat) : Semantics.amplitude * Semantics.amplitude :=
  Nat.iter k (grover_round n) (((/ sqrt 2) ^ n, 0)%R, ((/ sqrt 2) ^ n, 0)%R).

(* ================================================================== *)
(** ** The rest of [src/main.py]: results, histogram data, [main]

    The collaborators of [main] (the configuration file, the backend, the
    transpiler, the job, matplotlib) are outside the program; what they hand
    back is data of the model, and console output is left out. *)

Module MainIO.

(** What a call can end in: a value, [sys.exit(status)], or an exception
    nobody catches. *)
Inductive uncaught : Type :=
| Builtin (e : exn)
| KeyError
| IndexError
| AttributeError
| TypeError.

Inductive outcome (A : Type) : Type :=
| Return (a : A)
| SysExit (status : Z)
| Propagate (e : uncaught).
Arguments Return {A} a.
Arguments SysExit {A} status.
Arguments Propagate {A} e.

Definition and_then {A B : Type} (o : outcome A) (k : A -> outcome B)
  : outcome B :=
  match o with
  | Return a => k a
  | SysExit st => SysExit st
  | Propagate e => Propagate e
  end.

(** A call into the modelled library code: its exception propagates. *)
Definition lift {A : Type} (r : result A) : outcome A :=
  match r with
  | Ok a => Return a
  | Raise e => Propagate (Builtin e)
  end.

(** A counts dictionary: bitstring to number of shots, in insertion order. *)
Definition Counts : Type := list (string * Z).

(** [counts.get(k)]: the entry of key [k], if any. *)
Fixpoint get (k : string) (counts : Counts) : option Z :=
  match counts with
  | [] => None
  | (k', v) :: rest => if String.eqb k k' then Some v else get k rest
  end.

Definition keys (counts : Counts) : list string := map fst counts.

(** A field of a sampler's data bin: a bit array, which has [get_counts],
    or data of another kind, which has not. *)
Inductive Field : Type :=
| BitArray (counts : Counts)
| OtherData.

(** The data bin of one pub result: its named fields, in order. *)
Definition DataBin : Type := list (string * Field).

(** What [job.result()] hands back: the simulator's result object, or the
    sampler's sequence of pub results. *)
Inductive JobResult : Type :=
| AerResult (counts : Counts)
| PrimitiveResult (pubs : list DataBin).

Fixpoint getattr (name : string) (data : DataBin) : option Field :=
  match data with
  | [] => None
  | (name', f) :: rest => if String.eqb name name' then Some f else getattr name rest
  end.

Definition hasattr (data : DataBin) (name : string) : bool :=
  match getattr name data with Some _ => true | None => false end.

(** [field.get_counts()]. *)
Definition get_counts (f : option Field) : outcome Counts :=
  match f with
  | Some (BitArray c) => Return c
  | _ => Propagate AttributeError
  end.

(** The [try] block of [extract_counts_from_result]. *)
Definition extract_v2 (job_result : JobResult) : outcome Counts :=
  match job_result with
  | AerResult _ => Propagate TypeError
  | PrimitiveResult [] => Propagate IndexError
  | PrimitiveResult (data :: _) =>
      if hasattr data "c" then get_counts (getattr "c" data)
      else if hasattr data "meas" then get_counts (getattr "meas" data)
      else match map fst data with
           | [] => Propagate IndexError
           | first_field :: _ => get_counts (getattr first_field data)
           end
  end.

Definition extract_counts_from_result (job_result : JobResult)
    (use_real_hw : bool) : outcome Counts :=
  if negb use_real_hw then
    match job_result with
    | AerResult c => Return c
    | PrimitiveResult _ => Propagate AttributeError
    end
  else
    match extract_v2 job_result with
    | Return c => Return c
    | SysExit st => SysExit st
    | Propagate _ => SysExit 1
    end.

(** Python's [sorted], which is stable: [x] is placed after the elements
    that come strictly before it and in front of the rest. *)
Fixpoint insert_sorted {A : Type} (before : A -> A -> bool) (x : A) (l : list A)
  : list A :=
  match l with
  | [] => [x]
  | y :: rest => if before y x then y :: insert_sorted before x rest
                 else x :: y :: rest
  end.

Definition sorted {A : Type} (before : A -> A -> bool) (l : list A) : list A :=
  fold_right (insert_sorted before) [] l.

(** The colours of [save_histogram]: '#648fff' and, for the target,
    '#dc267f'. *)
Inductive Color : Type := Blue | Magenta.

Record Bar : Type := mkBar {
  label : string;
  height : Z;
  color : Color
}.

Fixpoint index_of (k : string) (l : list string) : option nat :=
  match l with
  | [] => None
  | k' :: rest =>
      if String.eqb k' k then Some 0%nat
      else option_map S (index_of k rest)
  end.

Fixpoint set_color (i : nat) (c : Color) (bars : list Bar) : list Bar :=
  match bars, i with
  | [], _ => []
  | b :: rest, O => mkBar (label b) (height b) c :: rest
  | b :: rest, S j => b :: set_color j c rest
  end.

(** The bars [save_histogram] draws: one per key, in ascending order of the
    keys, as tall as the key's count, the target's bar in the other colour.
    [counts[k]] cannot miss: [k] is a key. *)
Definition save_histogram (counts : Counts) (target_state : string) : list Bar :=
  let sorted_keys := sorted String.ltb (keys counts) in
  let sorted_values :=
    map (fun k => match get k counts with Some v => v | None => 0%Z end)
        sorted_keys in
  let bars := map (fun kv => mkBar (fst kv) (snd kv) Blue)
                  (combine sorted_keys sorted_values) in
  match index_of target_state sorted_keys with
  | Some index => set_color index Magenta bars
  | None => bars
  end.

(** [dict(sorted(counts.items(), key=lambda item: item[1], reverse=True))]:
    descending counts, equal counts in their original order. *)
Definition sorted_counts (counts : Counts) : Counts :=
  sorted (fun y x => (snd x <? snd y)%Z) counts.

Inductive Verdict : Type := SUCCESS | FAILURE.

(** Lines 143-158 of [main]: the success rate and the verdict. *)
Definition report (counts : Counts) (target : string) (shots : Z)
  : outcome Verdict :=
  let ranked := sorted_counts counts in
  let bars := save_histogram counts target in
  let success_count := match get target counts with Some v => v | None => 0%Z end in
  and_then (lift (Main.int_true_divide success_count shots)) (fun ratio =>
  let success_rate := (ratio * 100)%float in
  match keys ranked with
  | [] => Propagate IndexError
  | top_result :: _ =>
      Return (if String.eqb top_result target then SUCCESS else FAILURE)
  end).

(** [load_configuration()]: the parsed file, or [sys.exit(1)] when the file
    is missing or is not JSON.  A key of the object is present or absent;
    [n_qubits] and [shots] are integers, [target_state] a string. *)
Record Config : Type := mkConfig {
  cfg_n_qubits : option Z;
  cfg_target_state : option string;
  cfg_shots : option Z;
  cfg_output_filename : option string;
  cfg_use_real_hardware : option bool
}.

Definition getitem {A : Type} (v : option A) : outcome A :=
  match v with
  | Some a => Return a
  | None => Propagate KeyError
  end.

(** The world [main] runs in: the configuration file as loaded; the C
    library's arc sine; and [execute], which stands for drawing the circuit,
    [get_backend], [transpile], [run] and [result] on the circuit and the
    number of shots. *)
Record World : Type := mkWorld {
  load_configuration : option Config;
  libm_asin : float -> float;
  execute : bool -> Qiskit.QuantumCircuit -> Z -> outcome JobResult
}.

Definition main (w : World) : outcome Verdict :=
  match load_configuration w with
  | None => SysExit 1
  | Some config =>
      and_then (getitem (cfg_n_qubits config)) (fun n_qubits =>
      and_then (getitem (cfg_target_state config)) (fun target =>
      and_then (getitem (cfg_shots config)) (fun shots =>
      let output_file :=
        match cfg_output_filename config with
        | Some f => f
        | None => "histogram.png"%string
        end in
      let use_real_hw :=
        match cfg_use_real_hardware config with
        | Some b => b
        | None => false
        end in
      if negb (Z.of_nat (String.length target) =? n_qubits)%Z then SysExit 1
      else
        and_then (lift (Main.run (libm_asin w)
                          (Main.calculate_optimal_iterations n_qubits 1)))
          (fun t_opt =>
        and_then (lift (GroverAlgorithm.__init__ n_qubits target)) (fun grover =>
        and_then (lift (GroverAlgorithm.build_circuit grover t_opt)) (fun qc =>
        and_then (execute w use_real_hw qc shots) (fun result =>
        and_then (extract_counts_from_result result use_real_hw) (fun counts =>
        report counts target shots))))))))
  end.

End MainIO.

(** [config.get("use_real_hardware", False)]. *)
Definition hardware_mode (config : MainIO.Config) : bool :=
  match MainIO.cfg_use_real_hardware config with
  | Some b => b
  | None => false
  end.

(** What [main] does with the job result once the backend has returned. *)
Definition after_backend (config : MainIO.Config) (t : string) (shots : Z)
    (result : MainIO.JobResult) : MainIO.outcome MainIO.Verdict :=
  MainIO.and_then
    (MainIO.extract_counts_from_result result (hardware_mode config))
    (fun counts => MainIO.report counts t shots).

(** A world for the examples: the configuration as given, the table for the
    arc sine, and a backend that answers with the given result. *)
Definition example_world (config : option MainIO.Config)
    (answer : MainIO.outcome MainIO.JobResult) : MainIO.World :=
  MainIO.mkWorld config table_asin (fun _ _ _ => answer).

Definition example_config (n_qubits : Z) (t : string) (shots : Z)
  : MainIO.Config :=
  MainIO.mkConfig (Some n_qubits) (Some t) (Some shots) None None.

(* ================================================================== *)
(** * Properties *)

Import Qiskit GroverAlgorithm.

(* ------------------------------------------------------------------ *)
(** ** Placing gates: what the circuit methods add *)

Lemma extend_nil qc : extend qc [] = qc.
Proof. destruct qc; unfold extend; simpl. now rewrite app_nil_r. Qed.

Lemma extend_extend qc l1 l2 : extend (extend qc l1) l2 = extend qc (l1 ++ l2).
Proof. unfold extend; simpl. now rewrite app_assoc. Qed.

Lemma push_extend qc ci : push qc ci = extend qc [ci].
Proof. reflexivity. Qed.

Lemma bit_argument_line (size i : nat) :
  (i < size)%nat -> bit_argument size (Z.of_nat i) = Ok i.
Proof.
  intros Hi. unfold bit_argument.
  replace (0 <=? Z.of_nat i)%Z with true by (symmetry; apply Z.leb_le; lia).
  replace (Z.of_nat i <? Z.of_nat size)%Z with true by (symmetry; apply Z.ltb_lt; lia).
  simpl. now rewrite Nat2Z.id.
Qed.

Lemma bit_arguments_lines (size a m : nat) :
  (a + m <= size)%nat ->
  bit_arguments size (map Z.of_nat (seq a m)) = Ok (seq a m).
Proof.
  revert a. induction m as [|m IH]; intros a Ha; simpl; [reflexivity|].
  rewrite bit_argument_line by lia. simpl.
  rewrite IH by lia. reflexivity.
Qed.

Lemma existsb_eqb_seq (q a m : nat) :
  (q < a)%nat -> existsb (Nat.eqb q) (seq a m) = false.
Proof.
  revert a. induction m as [|m IH]; intros a Hq; simpl; [reflexivity|].
  rewrite IH by lia. replace (q =? a)%nat with false; [reflexivity|].
  symmetry. apply Nat.eqb_neq. lia.
Qed.

Lemma has_duplicates_seq (a m : nat) : has_duplicates (seq a m) = false.
Proof.
  revert a. induction m as [|m IH]; intros a; simpl; [reflexivity|].
  rewrite existsb_eqb_seq by lia. now rewrite IH.
Qed.

(** A single-line gate method over consecutive lines adds one placement per
    line, in ascending order. *)
Lemma for_each_lines (op : Operation) (f : Z -> QuantumCircuit -> result QuantumCircuit)
    (a m : nat) (qc : QuantumCircuit) :
  (forall q c, f q c = (q' <- bit_argument (num_qubits c) q ;;
                        Ok (push c (mkCI op [q'] [])))) ->
  (a + m <= num_qubits qc)%nat ->
  for_each (map Z.of_nat (seq a m)) f qc
  = Ok (extend qc (map (Spec.on_line op) (seq a m))).
Proof.
  intros Hf. revert a qc. induction m as [|m IH]; intros a qc Ha; simpl.
  - now rewrite extend_nil.
  - rewrite Hf, bit_argument_line by lia. simpl.
    rewrite IH by (simpl; lia).
    rewrite push_extend, extend_extend. reflexivity.
Qed.

Lemma h_each_range (n : nat) (qc : QuantumCircuit) :
  num_qubits qc = n -> (1 <= n)%nat ->
  h_each (range (Z.of_nat n)) qc = Ok (extend qc (Spec.on_every_line HGate n)).
Proof.
  intros Hn Hpos. unfold h_each, range. rewrite Nat2Z.id.
  unfold Spec.on_every_line.
  rewrite <- (@for_each_lines HGate h 0 n qc) by (try reflexivity; lia).
  destruct n as [|m]; [lia | reflexivity].
Qed.

Lemma x_each_range (n : nat) (qc : QuantumCircuit) :
  num_qubits qc = n -> (1 <= n)%nat ->
  x_each (range (Z.of_nat n)) qc = Ok (extend qc (Spec.on_every_line XGate n)).
Proof.
  intros Hn Hpos. unfold x_each, range. rewrite Nat2Z.id.
  unfold Spec.on_every_line.
  rewrite <- (@for_each_lines XGate x 0 n qc) by (try reflexivity; lia).
  destruct n as [|m]; [lia | reflexivity].
Qed.

(** Without a line to place it on the gate is refused. *)
Lemma each_of_nothing (stop : Z) (qc : QuantumCircuit) :
  (stop <= 0)%Z ->
  h_each (range stop) qc = Raise CircuitError
  /\ x_each (range stop) qc = Raise CircuitError.
Proof.
  intros Hstop. unfold h_each, x_each, range.
  replace (Z.to_nat stop) with 0%nat by lia. split; reflexivity.
Qed.

Lemma h_last_line (n : nat) (qc : QuantumCircuit) :
  num_qubits qc = n -> (1 <= n)%nat ->
  h (Z.of_nat n - 1) qc = Ok (extend qc [Spec.on_line HGate (n - 1)]).
Proof.
  intros Hn Hpos. unfold h.
  replace (Z.of_nat n - 1)%Z with (Z.of_nat (n - 1)) by lia.
  rewrite bit_argument_line by lia. reflexivity.
Qed.

(** The multi-controlled X is placed on the controls [0 .. n-2] and the
    target [n-1]; on a single line it has no control. *)
Lemma mcx_all_but_last (n : nat) (qc : QuantumCircuit) :
  num_qubits qc = n -> (1 <= n)%nat ->
  mcx (range (Z.of_nat n - 1)) (Z.of_nat n - 1) qc
  = Ok (extend qc [mkCI (MCXGate (n - 1)) (seq 0 (n - 1) ++ [(n - 1)%nat]) []]).
Proof.
  intros Hn Hn2. unfold mcx, range.
  replace (Z.of_nat n - 1)%Z with (Z.of_nat (n - 1)) by lia.
  rewrite Nat2Z.id, length_map, length_seq.
  rewrite Hn, bit_arguments_lines by lia. simpl.
  rewrite bit_argument_line by lia. simpl.
  replace (seq 0 (n - 1) ++ [(n - 1)%nat]) with (seq 0 (S (n - 1)))
    by (rewrite seq_S; reflexivity).
  rewrite has_duplicates_seq. reflexivity.
Qed.

(* ------------------------------------------------------------------ *)
(** ** The bit-flip loop of the oracle *)

Lemma length_list_ascii_of_string (s : string) :
  List.length (list_ascii_of_string s) = String.length s.
Proof. induction s as [|c s IH]; simpl; congruence. Qed.

Lemma get_list_ascii_of_string (s : string) (k : nat) :
  String.get k s = nth_error (list_ascii_of_string s) k.
Proof.
  revert k. induction s as [|c s IH]; intros [|k]; simpl; auto.
Qed.

(** Character [i] of the reversed target is the target bit of line [i]. *)
Lemma reversed_target_bit (t : string) (i : nat) :
  (i < String.length t)%nat ->
  Spec.target_bit t i = Some (nth i (reversed t) " "%char).
Proof.
  intros Hi. unfold Spec.target_bit, reversed.
  rewrite get_list_ascii_of_string.
  rewrite rev_nth by (rewrite length_list_ascii_of_string; exact Hi).
  rewrite length_list_ascii_of_string.
  replace (String.length t - 1 - i)%nat with (String.length t - S i)%nat by lia.
  apply nth_error_nth'. rewrite length_list_ascii_of_string. lia.
Qed.

Lemma flip_loop (l : list ascii) (a : nat) (qc : QuantumCircuit) :
  (a + List.length l <= num_qubits qc)%nat ->
  for_each (combine (map Z.of_nat (seq a (List.length l))) l)
    (fun '(i, bit) qc => if Ascii.eqb bit "0" then x i qc else Ok qc) qc
  = Ok (extend qc
          (map (Spec.on_line XGate)
             (filter (fun i => Ascii.eqb (nth (i - a) l " "%char) "0")
                (seq a (List.length l))))).
Proof.
  revert a qc. induction l as [|c l IH]; intros a qc Ha;
    cbn [List.length seq map combine for_each filter] in *.
  - now rewrite extend_nil.
  - assert (Hrest :
      filter (fun i => Ascii.eqb (nth (i - a) (c :: l) " "%char) "0")
             (seq (S a) (List.length l))
      = filter (fun i => Ascii.eqb (nth (i - S a) l " "%char) "0")
             (seq (S a) (List.length l))).
    { apply filter_ext_in. intros i Hi. apply in_seq in Hi.
      replace (i - a)%nat with (S (i - S a)) by lia. reflexivity. }
    rewrite Hrest, Nat.sub_diag. cbn [nth].
    destruct (Ascii.eqb c "0"); cbn [bind map].
    + unfold x at 1. rewrite bit_argument_line by lia. cbn [bind].
      rewrite IH by (simpl; lia).
      rewrite push_extend, extend_extend. reflexivity.
    + apply IH. lia.
Qed.

Lemma flip_zero_bits_spec (s : self) (qc : QuantumCircuit) :
  num_qubits qc = String.length (target s) ->
  flip_zero_bits s qc
  = Ok (extend qc (Spec.bit_flips (String.length (target s)) (target s))).
Proof.
  intros Hn. unfold flip_zero_bits, enumerate, range.
  rewrite Nat2Z.id.
  assert (Hlen : List.length (reversed (target s)) = String.length (target s)).
  { unfold reversed. now rewrite length_rev, length_list_ascii_of_string. }
  rewrite flip_loop by lia.
  unfold Spec.bit_flips. do 3 f_equal. rewrite Hlen.
  apply filter_ext_in. intros i Hi. apply in_seq in Hi.
  unfold Spec.is_zero_bit. rewrite reversed_target_bit by lia.
  now rewrite Nat.sub_0_r.
Qed.

(* ------------------------------------------------------------------ *)
(** ** The two operators *)

(** An object that [__init__] returned has [n] equal to the length of its
    target. *)
Lemma init_ok (n_qubits : Z) (t : string) (s : self) :
  __init__ n_qubits t = Ok s ->
  s = mkSelf n_qubits t /\ n_qubits = Z.of_nat (String.length t).
Proof.
  unfold __init__. destruct (Z.eqb_spec (Z.of_nat (String.length t)) n_qubits);
    simpl; [|discriminate].
  intros [= <-]. auto.
Qed.

Lemma new_sizes (n m : nat) :
  new (Z.of_nat n) (Z.of_nat m) = Ok (mkQC n m []).
Proof.
  unfold new.
  replace (Z.of_nat n <? 0)%Z with false by (symmetry; apply Z.ltb_ge; lia).
  replace (Z.of_nat m <? 0)%Z with false by (symmetry; apply Z.ltb_ge; lia).
  simpl. now rewrite !Nat2Z.id.
Qed.

(** For at least one line: the oracle is the operator of the specification. *)
Lemma create_oracle_lines (t : string) :
  (1 <= String.length t)%nat ->
  create_oracle (mkSelf (Z.of_nat (String.length t)) t)
  = Ok (Spec.oracle (String.length t) t).
Proof.
  intros Hn. unfold create_oracle. cbn [n target].
  rewrite (new_sizes _ 0). cbn [bind].
  rewrite flip_zero_bits_spec by reflexivity. cbn [bind].
  rewrite (@h_last_line (String.length t)) by (simpl; lia). cbn [bind].
  rewrite (@mcx_all_but_last (String.length t)) by (simpl; lia). cbn [bind].
  rewrite (@h_last_line (String.length t)) by (simpl; lia). cbn [bind].
  rewrite flip_zero_bits_spec by reflexivity. cbn [bind].
  rewrite !extend_extend.
  unfold to_instruction, set_name, extend, Spec.oracle, Spec.oracle_body,
    Spec.sandwich. cbn [num_qubits num_clbits data app target].
  reflexivity.
Qed.

(** For at least one line: the diffuser is the operator of the
    specification. *)
Lemma create_diffuser_lines (t : string) :
  (1 <= String.length t)%nat ->
  create_diffuser (mkSelf (Z.of_nat (String.length t)) t)
  = Ok (Spec.diffuser (String.length t)).
Proof.
  intros Hn. unfold create_diffuser. cbn [n target].
  rewrite (new_sizes _ 0). cbn [bind].
  rewrite (@h_each_range (String.length t)) by (simpl; lia). cbn [bind].
  rewrite (@x_each_range (String.length t)) by (simpl; lia). cbn [bind].
  rewrite (@h_last_line (String.length t)) by (simpl; lia). cbn [bind].
  rewrite (@mcx_all_but_last (String.length t)) by (simpl; lia). cbn [bind].
  rewrite (@h_last_line (String.length t)) by (simpl; lia). cbn [bind].
  rewrite (@x_each_range (String.length t)) by (simpl; lia). cbn [bind].
  rewrite (@h_each_range (String.length t)) by (simpl; lia). cbn [bind].
  rewrite !extend_extend.
  unfold to_instruction, set_name, extend, Spec.diffuser, Spec.diffuser_body,
    Spec.sandwich. cbn [num_qubits num_clbits data app].
  rewrite <- ?app_assoc. reflexivity.
Qed.

(* ------------------------------------------------------------------ *)
(** ** Assembling the circuit *)

Lemma append_all_lines (op : Operation) (n : nat) (qc : QuantumCircuit) :
  num_qubits qc = n -> op_num_qubits op = n -> op_num_clbits op = 0%nat ->
  append op (range (Z.of_nat n)) qc = Ok (extend qc [mkCI op (seq 0 n) []]).
Proof.
  intros Hn Hq Hc. unfold append, range.
  rewrite Nat2Z.id, Hn, bit_arguments_lines by lia. cbn [bind].
  rewrite length_seq, Hq, Hc, Nat.eqb_refl, has_duplicates_seq. reflexivity.
Qed.

(** [k] passes of the loop body add [k] oracle-then-diffuser pairs. *)
Lemma grover_loop (n : nat) (t : string) (k : nat) (a : nat) (qc : QuantumCircuit) :
  num_qubits qc = n ->
  for_each (map Z.of_nat (seq a k))
    (fun _ qc =>
       qc <- append (Spec.oracle n t) (range (Z.of_nat n)) qc ;;
       append (Spec.diffuser n) (range (Z.of_nat n)) qc) qc
  = Ok (extend qc (List.concat (repeat (Spec.round n t) k))).
Proof.
  revert a qc. induction k as [|k IH]; intros a qc Hn;
    cbn [seq map for_each repeat List.concat].
  - now rewrite extend_nil.
  - rewrite (@append_all_lines _ n) by auto. cbn [bind].
    rewrite (@append_all_lines _ n) by auto. cbn [bind].
    rewrite IH by auto. rewrite !extend_extend. reflexivity.
Qed.

Lemma measure_fold (l : list nat) (qc : QuantumCircuit) :
  fold_left (fun c qc' => push c (mkCI Measure [fst qc'] [snd qc']))
    (combine l l) qc
  = extend qc (map (fun i => mkCI Measure [i] [i]) l).
Proof.
  revert qc. induction l as [|i l IH]; intros qc; cbn [combine fold_left map].
  - now rewrite extend_nil.
  - rewrite IH, push_extend, extend_extend. reflexivity.
Qed.

Lemma measure_all_lines (n : nat) (qc : QuantumCircuit) :
  num_qubits qc = n -> num_clbits qc = n ->
  measure (range (Z.of_nat n)) (range (Z.of_nat n)) qc
  = Ok (extend qc (Spec.measurements n)).
Proof.
  intros Hq Hc. unfold measure, range.
  rewrite Nat2Z.id, Hq, Hc, bit_arguments_lines by lia. cbn [bind].
  rewrite Nat.eqb_refl. cbn [negb]. now rewrite measure_fold.
Qed.

(** For at least one line and any integer [iterations]: the circuit of the
    specification with [max iterations 0] rounds. *)
Lemma build_circuit_lines (t : string) (iterations : Z) :
  (1 <= String.length t)%nat ->
  build_circuit (mkSelf (Z.of_nat (String.length t)) t) iterations
  = Ok (Spec.circuit (String.length t) t (Z.to_nat iterations)).
Proof.
  intros Hn. unfold build_circuit.
  rewrite create_oracle_lines, create_diffuser_lines by exact Hn.
  cbn [n target]. rewrite new_sizes. cbn [bind].
  rewrite (@h_each_range (String.length t)) by (simpl; lia). cbn [bind].
  unfold range at 1.
  rewrite (@grover_loop (String.length t)) by reflexivity. cbn [bind].
  rewrite (@measure_all_lines (String.length t)) by reflexivity. cbn [bind].
  rewrite !extend_extend. reflexivity.
Qed.

(* ------------------------------------------------------------------ *)
(** ** Basis states: setting and flipping one line *)

Import Semantics.

Lemma line_setb (v : bool) (q p : nat) (b : N) :
  line (setb v q b) p = if (p =? q)%nat then v else line b p.
Proof.
  unfold line, setb. destruct (Nat.eqb_spec p q) as [->|Hne].
  - destruct v.
    + apply N.setbit_eq.
    + apply N.clearbit_eq.
  - destruct v.
    + apply N.setbit_neq. lia.
    + apply N.clearbit_neq. lia.
Qed.

Lemma line_inj (b b' : N) : (forall p, line b p = line b' p) -> b = b'.
Proof.
  intros H. apply N.bits_inj. intros k.
  specialize (H (N.to_nat k)). unfold line in H. now rewrite N2Nat.id in H.
Qed.

Lemma setb_setb (v v' : bool) (q : nat) (b : N) :
  setb v q (setb v' q b) = setb v q b.
Proof.
  apply line_inj. intros p. rewrite !line_setb.
  now destruct (p =? q)%nat.
Qed.

Lemma setb_comm (v v' : bool) (q q' : nat) (b : N) :
  q <> q' -> setb v q (setb v' q' b) = setb v' q' (setb v q b).
Proof.
  intros Hne. apply line_inj. intros p. rewrite !line_setb.
  destruct (Nat.eqb_spec p q), (Nat.eqb_spec p q'); congruence.
Qed.

Lemma setb_line (q : nat) (b : N) : setb (line b q) q b = b.
Proof.
  apply line_inj. intros p. rewrite line_setb.
  now destruct (Nat.eqb_spec p q) as [->|].
Qed.

Lemma flip_flip (q : nat) (b : N) : flip q (flip q b) = b.
Proof.
  unfold flip. now rewrite N.lxor_assoc, N.lxor_nilpotent, N.lxor_0_r.
Qed.

Lemma flip_comm (q q' : nat) (b : N) : flip q (flip q' b) = flip q' (flip q b).
Proof.
  unfold flip. rewrite !N.lxor_assoc. f_equal. apply N.lxor_comm.
Qed.

Lemma line_flip_other (q p : nat) (b : N) :
  p <> q -> line (flip q b) p = line b p.
Proof.
  intros Hne. unfold line, flip.
  rewrite N.lxor_spec, N.pow2_bits_false.
  - now rewrite xorb_false_r.
  - intros Heq. apply Nat2N.inj in Heq. congruence.
Qed.

Lemma controls_flip (cs : list nat) (t : nat) (b : N) :
  ~ In t cs -> forallb (line (flip t b)) cs = forallb (line b) cs.
Proof.
  induction cs as [|c cs IH]; intros Hnot; simpl; [reflexivity|].
  rewrite line_flip_other by (intros ->; apply Hnot; now left).
  rewrite IH; [reflexivity|]. intros Hin. apply Hnot. now right.
Qed.

(* ------------------------------------------------------------------ *)
(** ** Each gate is its own inverse *)

Lemma half_twice : (/ sqrt 2 * / sqrt 2 = / 2)%R.
Proof.
  rewrite <- Rinv_mult. f_equal. apply sqrt_def. lra.
Qed.

Lemma hadamard_sum (s a b : R) :
  (s * s = / 2)%R ->
  (s * (s * (a + 1 * b) + 1 * (s * (a + -1 * b))) = a)%R.
Proof.
  intros Hs.
  replace (s * (s * (a + 1 * b) + 1 * (s * (a + -1 * b))))%R
    with ((s * s) * (2 * a))%R by ring.
  rewrite Hs. field.
Qed.

Lemma hadamard_difference (s a b : R) :
  (s * s = / 2)%R ->
  (s * (s * (a + 1 * b) + -1 * (s * (a + -1 * b))) = b)%R.
Proof.
  intros Hs.
  replace (s * (s * (a + 1 * b) + -1 * (s * (a + -1 * b))))%R
    with ((s * s) * (2 * b))%R by ring.
  rewrite Hs. field.
Qed.

Lemma X_on_twice (q : nat) (psi : State) : X_on q (X_on q psi) = psi.
Proof.
  apply functional_extensionality. intros b. unfold X_on.
  now rewrite flip_flip.
Qed.

Lemma X_on_comm (q q' : nat) (psi : State) :
  X_on q (X_on q' psi) = X_on q' (X_on q psi).
Proof.
  apply functional_extensionality. intros b. unfold X_on.
  now rewrite flip_comm.
Qed.

Lemma H_on_twice (q : nat) (psi : State) : H_on q (H_on q psi) = psi.
Proof.
  apply functional_extensionality. intros b. unfold H_on.
  rewrite !setb_setb, !line_setb, Nat.eqb_refl.
  assert (Hb : psi b = psi (setb (line b q) q b)) by now rewrite setb_line.
  pose proof half_twice as Hh.
  destruct (line b q); rewrite Hb; clear Hb;
    destruct (psi (setb false q b)) as [x0 y0], (psi (setb true q b)) as [x1 y1];
    unfold Cscale, Cplus; cbn [fst snd]; f_equal;
    auto using hadamard_sum, hadamard_difference.
Qed.

Lemma H_on_comm (q q' : nat) (psi : State) :
  q <> q' -> H_on q (H_on q' psi) = H_on q' (H_on q psi).
Proof.
  intros Hne. apply functional_extensionality. intros b. unfold H_on.
  rewrite !line_setb.
  replace (q' =? q)%nat with false by (symmetry; apply Nat.eqb_neq; congruence).
  replace (q =? q')%nat with false by (symmetry; apply Nat.eqb_neq; congruence).
  rewrite !(@setb_comm _ _ q' q) by congruence.
  destruct (psi (setb false q (setb false q' b))) as [x00 y00],
           (psi (setb true q (setb false q' b))) as [x10 y10],
           (psi (setb false q (setb true q' b))) as [x01 y01],
           (psi (setb true q (setb true q' b))) as [x11 y11].
  destruct (line b q), (line b q'); unfold Cscale, Cplus; cbn [fst snd];
    f_equal; ring.
Qed.

Lemma MCX_on_twice (cs : list nat) (t : nat) (psi : State) :
  ~ In t cs -> MCX_on cs t (MCX_on cs t psi) = psi.
Proof.
  intros Hnot. apply functional_extensionality. intros b. unfold MCX_on.
  destruct (forallb (line b) cs) eqn:Hc.
  - now rewrite controls_flip, Hc, flip_flip.
  - reflexivity.
Qed.

Lemma mcz_twice (n : nat) (psi : State) : mcz n (mcz n psi) = psi.
Proof.
  unfold mcz. rewrite H_on_twice, MCX_on_twice, H_on_twice; [reflexivity|].
  intros Hin. apply in_seq in Hin. lia.
Qed.

(** A layer of pairwise commuting involutions on distinct lines is an
    involution. *)
Lemma layer_commutes (g : nat -> State -> State) (q : nat) (qs : list nat) :
  (forall q' psi, In q' qs -> g q (g q' psi) = g q' (g q psi)) ->
  forall psi, g q (layer g qs psi) = layer g qs (g q psi).
Proof.
  unfold layer. induction qs as [|q' qs IH]; intros Hc psi; cbn [fold_left].
  - reflexivity.
  - rewrite IH by (intros; apply Hc; now right).
    f_equal. apply Hc. now left.
Qed.

Lemma layer_twice (g : nat -> State -> State) (qs : list nat) :
  NoDup qs ->
  (forall q psi, g q (g q psi) = psi) ->
  (forall q q' psi, q <> q' -> g q (g q' psi) = g q' (g q psi)) ->
  forall psi, layer g qs (layer g qs psi) = psi.
Proof.
  intros Hnd Hinv Hcomm. induction Hnd as [|q qs Hq Hnd IH]; intros psi.
  - reflexivity.
  - change (layer g (q :: qs) (layer g (q :: qs) psi))
      with (layer g qs (g q (layer g qs (g q psi)))).
    rewrite layer_commutes.
    + now rewrite Hinv, IH.
    + intros q' phi Hin. apply Hcomm. intros ->. contradiction.
Qed.

(* ------------------------------------------------------------------ *)
(** ** The action of the two operators placed across all lines *)

Lemma apply_instruction name nq nc body qargs psi :
  apply (Instruction name nq nc body) qargs psi
  = if ((List.length qargs =? nq)%nat && (nc =? 0)%nat)%bool
    then apply_body apply qargs body psi else None.
Proof. reflexivity. Qed.

Lemma apply_body_app f qargs l1 l2 psi :
  apply_body f qargs (l1 ++ l2) psi
  = match apply_body f qargs l1 psi with
    | Some psi' => apply_body f qargs l2 psi'
    | None => None
    end.
Proof.
  revert psi. induction l1 as [|ci l1 IH]; intros psi; cbn [app apply_body].
  - reflexivity.
  - destruct (f (operation ci) _ psi); [apply IH | reflexivity].
Qed.

Lemma lines_in_place (n : nat) (l : list nat) :
  Forall (fun q => q < n)%nat l ->
  map (fun j => nth j (seq 0 n) 0%nat) l = l.
Proof.
  induction 1 as [|q l Hq _ IH]; cbn [map]; [reflexivity|].
  now rewrite IH, seq_nth.
Qed.

Lemma apply_body_layer (op : Operation) (g : nat -> State -> State)
    (n : nat) (qs : list nat) (psi : State) :
  (forall q phi, apply op [q] phi = Some (g q phi)) ->
  Forall (fun q => q < n)%nat qs ->
  apply_body apply (seq 0 n) (map (Spec.on_line op) qs) psi
  = Some (layer g qs psi).
Proof.
  intros Hop Hqs. revert psi.
  induction Hqs as [|q qs Hq _ IH]; intros psi; cbn [map apply_body].
  - reflexivity.
  - cbn [Spec.on_line operation qubits map].
    rewrite seq_nth by exact Hq. cbn [Nat.add].
    rewrite Hop. apply IH.
Qed.

Lemma apply_body_sandwich (n : nat) (psi : State) :
  (1 <= n)%nat ->
  apply_body apply (seq 0 n) (Spec.sandwich n) psi = Some (mcz n psi).
Proof.
  intros Hn. unfold Spec.sandwich, Spec.on_line.
  cbn [apply_body operation qubits map].
  rewrite seq_nth by lia. cbn [Nat.add apply].
  rewrite lines_in_place.
  2:{ apply Forall_app. split.
      - apply Forall_forall. intros q Hq. apply in_seq in Hq. lia.
      - constructor; [lia | constructor]. }
  rewrite length_app, length_seq. cbn [List.length].
  rewrite Nat.eqb_refl, removelast_last, last_last.
  reflexivity.
Qed.

Lemma zero_bit_lines_below (n : nat) (t : string) :
  Forall (fun q => q < n)%nat (filter (Spec.is_zero_bit t) (seq 0 n)).
Proof.
  apply Forall_forall. intros q Hq. apply filter_In in Hq.
  destruct Hq as [Hq _]. apply in_seq in Hq. lia.
Qed.

Lemma all_lines_below (n : nat) : Forall (fun q => q < n)%nat (seq 0 n).
Proof. apply Forall_forall. intros q Hq. apply in_seq in Hq. lia. Qed.

Lemma apply_oracle (n : nat) (t : string) (psi : State) :
  (1 <= n)%nat ->
  apply (Spec.oracle n t) (seq 0 n) psi
  = Some (layer X_on (filter (Spec.is_zero_bit t) (seq 0 n))
            (mcz n (layer X_on (filter (Spec.is_zero_bit t) (seq 0 n)) psi))).
Proof.
  intros Hn. unfold Spec.oracle. rewrite apply_instruction.
  rewrite length_seq, Nat.eqb_refl. cbn [andb Nat.eqb].
  unfold Spec.oracle_body, Spec.bit_flips.
  rewrite apply_body_app.
  rewrite (@apply_body_layer XGate X_on)
    by (auto using zero_bit_lines_below).
  rewrite apply_body_app, apply_body_sandwich by exact Hn.
  apply apply_body_layer; auto using zero_bit_lines_below.
Qed.

Lemma apply_diffuser (n : nat) (psi : State) :
  (1 <= n)%nat ->
  apply (Spec.diffuser n) (seq 0 n) psi
  = Some (layer H_on (seq 0 n)
            (layer X_on (seq 0 n)
               (mcz n (layer X_on (seq 0 n) (layer H_on (seq 0 n) psi))))).
Proof.
  intros Hn. unfold Spec.diffuser. rewrite apply_instruction.
  rewrite length_seq, Nat.eqb_refl. cbn [andb Nat.eqb].
  unfold Spec.diffuser_body, Spec.on_every_line.
  rewrite apply_body_app.
  rewrite (@apply_body_layer HGate H_on) by (auto using all_lines_below).
  rewrite apply_body_app.
  rewrite (@apply_body_layer XGate X_on) by (auto using all_lines_below).
  rewrite apply_body_app, apply_body_sandwich by exact Hn.
  rewrite apply_body_app.
  rewrite (@apply_body_layer XGate X_on) by (auto using all_lines_below).
  apply apply_body_layer; auto using all_lines_below.
Qed.

Lemma X_layer_twice (qs : list nat) (psi : State) :
  NoDup qs -> layer X_on qs (layer X_on qs psi) = psi.
Proof.
  intros Hnd. apply layer_twice; auto using X_on_twice, X_on_comm.
Qed.

Lemma H_layer_twice (qs : list nat) (psi : State) :
  NoDup qs -> layer H_on qs (layer H_on qs psi) = psi.
Proof.
  intros Hnd. apply layer_twice; auto using H_on_twice, H_on_comm.
Qed.

Lemma oracle_twice (n : nat) (t : string) (psi : State) :
  (1 <= n)%nat ->
  exists psi',
    apply (Spec.oracle n t) (seq 0 n) psi = Some psi'
    /\ apply (Spec.oracle n t) (seq 0 n) psi' = Some psi.
Proof.
  intros Hn. eexists. split; [apply apply_oracle; exact Hn|].
  rewrite apply_oracle by exact Hn. f_equal.
  assert (Hnd : NoDup (filter (Spec.is_zero_bit t) (seq 0 n)))
    by (apply NoDup_filter, seq_NoDup).
  now rewrite X_layer_twice, mcz_twice, X_layer_twice.
Qed.

Lemma diffuser_twice (n : nat) (psi : State) :
  (1 <= n)%nat ->
  exists psi',
    apply (Spec.diffuser n) (seq 0 n) psi = Some psi'
    /\ apply (Spec.diffuser n) (seq 0 n) psi' = Some psi.
Proof.
  intros Hn. eexists. split; [apply apply_diffuser; exact Hn|].
  rewrite apply_diffuser by exact Hn. f_equal.
  pose proof (seq_NoDup n 0) as Hnd.
  now rewrite H_layer_twice, X_layer_twice, mcz_twice, X_layer_twice,
    H_layer_twice.
Qed.

(* ------------------------------------------------------------------ *)
(** ** The oracle changes the sign of the target state only *)

Lemma line_flip (q p : nat) (b : N) :
  line (flip q b) p = xorb (line b p) (p =? q)%nat.
Proof.
  destruct (Nat.eqb_spec p q) as [->|Hne].
  - unfold line, flip. rewrite N.lxor_spec, N.pow2_bits_true. reflexivity.
  - rewrite line_flip_other by exact Hne. now rewrite xorb_false_r.
Qed.

Lemma flip_setb (v : bool) (q : nat) (b : N) :
  flip q (setb v q b) = setb (negb v) q b.
Proof.
  apply line_inj. intros p. rewrite line_flip, !line_setb.
  destruct (p =? q)%nat, v; try reflexivity; now rewrite xorb_false_r.
Qed.

Lemma forallb_agree (A : Type) (f g : A -> bool) (l : list A) :
  (forall a, In a l -> f a = g a) -> forallb f l = forallb g l.
Proof.
  induction l as [|a l IH]; intros H; cbn [forallb]; [reflexivity|].
  rewrite H by (now left). rewrite IH; [reflexivity|].
  intros a' Ha'. apply H. now right.
Qed.

Lemma controls_setb (v : bool) (n : nat) (b : N) :
  forallb (line (setb v n b)) (seq 0 n) = forallb (line b) (seq 0 n).
Proof.
  apply forallb_agree. intros p Hp. apply in_seq in Hp.
  rewrite line_setb.
  now replace (p =? n)%nat with false by (symmetry; apply Nat.eqb_neq; lia).
Qed.

Lemma hadamard_flipped_difference (s a b : R) :
  (s * s = / 2)%R ->
  (s * (s * (a + -1 * b) + -1 * (s * (a + 1 * b))) = - b)%R.
Proof.
  intros Hs.
  replace (s * (s * (a + -1 * b) + -1 * (s * (a + 1 * b))))%R
    with (- ((s * s) * (2 * b)))%R by ring.
  rewrite Hs. field.
Qed.

Lemma hadamard_flipped_sum (s a b : R) :
  (s * s = / 2)%R ->
  (s * (s * (a + -1 * b) + 1 * (s * (a + 1 * b))) = a)%R.
Proof.
  intros Hs.
  replace (s * (s * (a + -1 * b) + 1 * (s * (a + 1 * b))))%R
    with ((s * s) * (2 * a))%R by ring.
  rewrite Hs. field.
Qed.

(** The sandwich is the multi-controlled Z: the sign of the amplitude
    changes where all [n] lines are 1, and nowhere else. *)
Lemma mcz_phase (n : nat) (psi : State) (b : N) :
  (1 <= n)%nat ->
  mcz n psi b = if forallb (line b) (seq 0 n) then Copp (psi b) else psi b.
Proof.
  intros Hn. destruct n as [|t]; [lia|]. clear Hn.
  rewrite seq_S, forallb_app. cbn [forallb Nat.add]. rewrite andb_true_r.
  unfold mcz. replace (S t - 1)%nat with t by lia.
  destruct (forallb (line b) (seq 0 t)) eqn:Hc; cbn [andb].
  - assert (Hb : psi b = psi (setb (line b t) t b)) by now rewrite setb_line.
    unfold H_on at 1. unfold MCX_on.
    rewrite !controls_setb, Hc, !flip_setb. cbn [negb].
    unfold H_on. rewrite !setb_setb, !line_setb, Nat.eqb_refl.
    pose proof half_twice as Hh.
    destruct (line b t); rewrite Hb; clear Hb;
      destruct (psi (setb false t b)) as [x0 y0],
               (psi (setb true t b)) as [x1 y1];
      unfold Cscale, Cplus, Copp; cbn [fst snd]; f_equal;
      auto using hadamard_flipped_difference, hadamard_flipped_sum.
  - unfold H_on at 1. unfold MCX_on. rewrite !controls_setb, Hc.
    change (H_on t (H_on t psi) b = psi b).
    now rewrite H_on_twice.
Qed.

Lemma layer_X_flips (qs : list nat) (psi : State) (b : N) :
  layer X_on qs psi b = psi (flips qs b).
Proof.
  revert psi. induction qs as [|q qs IH]; intros psi; [reflexivity|].
  change (layer X_on (q :: qs) psi) with (layer X_on qs (X_on q psi)).
  rewrite IH. reflexivity.
Qed.

Lemma line_flips (qs : list nat) (p : nat) (b : N) :
  NoDup qs ->
  line (flips qs b) p = xorb (line b p) (existsb (Nat.eqb p) qs).
Proof.
  induction 1 as [|q qs Hq _ IH]; cbn [flips fold_right existsb].
  - now rewrite xorb_false_r.
  - fold (flips qs b). rewrite line_flip, IH.
    destruct (Nat.eqb_spec p q) as [->|Hne]; cbn [orb].
    + replace (existsb (Nat.eqb q) qs) with false;
        [now rewrite xorb_false_r|].
      symmetry. apply not_true_is_false. intros Hex.
      apply existsb_exists in Hex. destruct Hex as [q' [Hin Heq]].
      apply Nat.eqb_eq in Heq. subst q'. contradiction.
    + now rewrite xorb_false_r.
Qed.

Lemma flips_twice (qs : list nat) (b : N) :
  NoDup qs -> flips qs (flips qs b) = b.
Proof.
  intros Hnd. apply line_inj. intros p. rewrite !line_flips by exact Hnd.
  now destruct (line b p), (existsb (Nat.eqb p) qs).
Qed.

Lemma zero_bit_line_listed (t : string) (n p : nat) :
  (p < n)%nat ->
  existsb (Nat.eqb p) (filter (Spec.is_zero_bit t) (seq 0 n))
  = Spec.is_zero_bit t p.
Proof.
  intros Hp. destruct (Spec.is_zero_bit t p) eqn:Hz.
  - apply existsb_exists. exists p. split; [|apply Nat.eqb_refl].
    apply filter_In. split; [apply in_seq; lia | exact Hz].
  - apply not_true_is_false. intros Hex.
    apply existsb_exists in Hex. destruct Hex as [q [Hin Heq]].
    apply Nat.eqb_eq in Heq. subst q.
    apply filter_In in Hin. destruct Hin as [_ Hin]. congruence.
Qed.

(** X layer, multi-controlled Z, X layer: the sign changes exactly at the
    basis state that carries the target's bits. *)
Lemma oracle_phase (n : nat) (t : string) (psi : State) (b : N) :
  (1 <= n)%nat ->
  layer X_on (filter (Spec.is_zero_bit t) (seq 0 n))
    (mcz n (layer X_on (filter (Spec.is_zero_bit t) (seq 0 n)) psi)) b
  = if encodes t n b then Copp (psi b) else psi b.
Proof.
  intros Hn.
  assert (Hnd : NoDup (filter (Spec.is_zero_bit t) (seq 0 n)))
    by (apply NoDup_filter, seq_NoDup).
  rewrite layer_X_flips, mcz_phase by exact Hn.
  rewrite layer_X_flips, flips_twice by exact Hnd.
  replace (forallb (line (flips (filter (Spec.is_zero_bit t) (seq 0 n)) b))
             (seq 0 n))
    with (encodes t n b); [reflexivity|].
  unfold encodes. apply forallb_agree. intros i Hi. apply in_seq in Hi.
  rewrite line_flips by exact Hnd.
  rewrite zero_bit_line_listed by lia.
  now destruct (line b i), (Spec.is_zero_bit t i).
Qed.

(* ------------------------------------------------------------------ *)
(** ** When the builders return at all *)

Lemma no_line_fails (iterations : Z) :
  create_oracle (mkSelf 0 "") = Raise CircuitError
  /\ create_diffuser (mkSelf 0 "") = Raise CircuitError
  /\ build_circuit (mkSelf 0 "") iterations = Raise CircuitError.
Proof. repeat split. Qed.

(** A builder that returns has at least one line to build on. *)
Lemma builders_need_a_line (t : string) :
  (exists op, create_oracle (mkSelf (Z.of_nat (String.length t)) t) = Ok op)
  \/ (exists op, create_diffuser (mkSelf (Z.of_nat (String.length t)) t) = Ok op)
  \/ (exists k qc, build_circuit (mkSelf (Z.of_nat (String.length t)) t) k = Ok qc) ->
  (1 <= String.length t)%nat.
Proof.
  intros H.
  destruct (String.length t) as [|m] eqn:Hlen; [|lia]. exfalso.
  destruct t; [|discriminate]. cbn [Z.of_nat] in H.
  destruct H as [[op H]|[[op H]|[k [qc H]]]].
  - now rewrite (proj1 (no_line_fails 0)) in H.
  - now rewrite (proj1 (proj2 (no_line_fails 0))) in H.
  - now rewrite (proj2 (proj2 (no_line_fails k))) in H.
Qed.

(* ================================================================== *)
(** * The claims *)

(* ------------------------------------------------------------------ *)
(** ** Construction of the algorithm object (C6) *)

(** C6, as stated, fails: a target of the right length whose characters are
    not bits is accepted.  [GroverAlgorithm(2, "1a")] constructs the object;
    no character of the target is examined. *)
Lemma init_accepts_non_bit_characters :
  __init__ 2 "1a" = Ok (mkSelf 2 "1a").
Proof. reflexivity. Qed.

(** C6, amended: construction fails, with Python's [ValueError], exactly when
    the length of the target differs from [n_qubits]; every string of length
    [n_qubits], whatever its characters, is accepted and stored unchanged. *)
Theorem init_checks_length_only (n_qubits : Z) (target_state : string) :
  (Z.of_nat (String.length target_state) <> n_qubits ->
     __init__ n_qubits target_state = Raise ValueError)
  /\ (Z.of_nat (String.length target_state) = n_qubits ->
     __init__ n_qubits target_state = Ok (mkSelf n_qubits target_state)).
Proof.
  unfold __init__. split; intros Hlen.
  - apply Z.eqb_neq in Hlen. now rewrite Hlen.
  - apply Z.eqb_eq in Hlen. now rewrite Hlen.
Qed.

Lemma init_checks_length_only_witness :
  __init__ 3 "10" = Raise ValueError
  /\ __init__ 2 "10" = Ok (mkSelf 2 "10").
Proof.
  split.
  - apply (proj1 (init_checks_length_only 3 "10")). discriminate.
  - apply (proj2 (init_checks_length_only 2 "10")). reflexivity.
Defined.

(* ------------------------------------------------------------------ *)
(** ** The oracle (C2, C7) *)

(** C2: for every object built with [n_qubits >= 1], [create_oracle]
    returns one composite operator, named "Oracle (Z_f)", on [n_qubits]
    lines, whose body is exactly: an X on every line whose target bit
    (rightmost character = line 0) is '0'; H on line n-1, the X on line n-1
    controlled by lines 0..n-2 (by no line when n = 1), H on line n-1; the
    same X gates again. *)
Theorem create_oracle_every_register (n_qubits : Z) (t : string) (s : self) :
  __init__ n_qubits t = Ok s ->
  (1 <= n_qubits)%Z ->
  create_oracle s
  = Ok (Instruction "Oracle (Z_f)" (Z.to_nat n_qubits) 0
          (Spec.bit_flips (Z.to_nat n_qubits) t
             ++ [ Spec.on_line HGate (Z.to_nat n_qubits - 1);
                  mkCI (MCXGate (Z.to_nat n_qubits - 1))
                       (seq 0 (Z.to_nat n_qubits - 1)
                          ++ [(Z.to_nat n_qubits - 1)%nat]) [];
                  Spec.on_line HGate (Z.to_nat n_qubits - 1) ]
             ++ Spec.bit_flips (Z.to_nat n_qubits) t)).
Proof.
  intros Hinit Hn. apply init_ok in Hinit. destruct Hinit as [-> ->].
  rewrite Nat2Z.id. apply create_oracle_lines. lia.
Qed.

Lemma create_oracle_every_register_witness :
  create_oracle (mkSelf 1 "1")
  = Ok (Instruction "Oracle (Z_f)" 1 0
          [ mkCI HGate [0%nat] []; mkCI (MCXGate 0) [0%nat] [];
            mkCI HGate [0%nat] [] ])
  /\ create_oracle (mkSelf 2 "10")
     = Ok (Instruction "Oracle (Z_f)" 2 0
             [ mkCI XGate [0%nat] [];
               mkCI HGate [1%nat] []; mkCI (MCXGate 1) [0%nat; 1%nat] [];
               mkCI HGate [1%nat] [];
               mkCI XGate [0%nat] [] ]).
Proof.
  split.
  - exact (@create_oracle_every_register 1 "1" (mkSelf 1 "1") eq_refl
             ltac:(lia)).
  - exact (@create_oracle_every_register 2 "10" (mkSelf 2 "10") eq_refl
             ltac:(lia)).
Defined.

(** X1: for every object built with
    [n_qubits >= 2], [create_oracle] returns the operator named
    "Oracle (Z_f)" on [n_qubits] lines whose body is exactly: an X on every
    line whose target bit (rightmost character = line 0) is '0', in ascending
    order; H on line n-1, X on line n-1 controlled by lines 0..n-2, H on line
    n-1; the same X gates again. *)
Theorem create_oracle_gate_sequence (n_qubits : Z) (t : string) (s : self) :
  __init__ n_qubits t = Ok s ->
  (2 <= n_qubits)%Z ->
  create_oracle s = Ok (Spec.oracle (Z.to_nat n_qubits) t).
Proof.
  intros Hinit Hn. apply init_ok in Hinit. destruct Hinit as [-> ->].
  rewrite Nat2Z.id. apply create_oracle_lines. lia.
Qed.

Lemma create_oracle_gate_sequence_witness :
  create_oracle (mkSelf 3 "101") = Ok (Spec.oracle 3 "101").
Proof.
  exact (@create_oracle_gate_sequence 3 "101" (mkSelf 3 "101") eq_refl
           ltac:(lia)).
Defined.

(** C7: with one line and target "0" or "1", [create_oracle] raises
    nothing.  The multi-controlled X gets the empty control list and is
    placed as a gate without controls between the two Hadamards, and the
    operator returned is a phase flip on the one line: it changes the sign
    of the amplitude of every basis state whose line 0 carries the target
    bit and leaves every other amplitude as it is. *)
Theorem create_oracle_one_line (t : string) :
  t = "0"%string \/ t = "1"%string ->
  exists s oracle,
    __init__ 1 t = Ok s
    /\ create_oracle s = Ok oracle
    /\ In (mkCI (MCXGate 0) [0%nat] []) (Spec.oracle_body 1 t)
    /\ oracle = Instruction "Oracle (Z_f)" 1 0 (Spec.oracle_body 1 t)
    /\ forall psi, exists psi',
         apply oracle [0%nat] psi = Some psi'
         /\ forall b, psi' b
                      = if Bool.eqb (line b 0) (String.eqb t "1")
                        then Copp (psi b) else psi b.
Proof.
  intros Ht.
  assert (Hlen : String.length t = 1%nat) by (destruct Ht; subst; reflexivity).
  exists (mkSelf 1 t), (Spec.oracle 1 t).
  split; [destruct Ht; subst; reflexivity|].
  split; [destruct Ht; subst; reflexivity|].
  split; [destruct Ht; subst; cbn; tauto|].
  split; [reflexivity|].
  intros psi. eexists.
  split; [exact (@apply_oracle 1 t psi (le_n 1))|].
  intros b. rewrite oracle_phase by apply le_n.
  unfold encodes. cbn [seq forallb]. rewrite andb_true_r.
  destruct Ht; subst; reflexivity.
Qed.

Lemma create_oracle_one_line_witness :
  create_oracle (mkSelf 1 "0")
  = Ok (Instruction "Oracle (Z_f)" 1 0
          [ mkCI XGate [0%nat] [];
            mkCI HGate [0%nat] []; mkCI (MCXGate 0) [0%nat] [];
            mkCI HGate [0%nat] [];
            mkCI XGate [0%nat] [] ])
  /\ exists s oracle,
       __init__ 1 "0" = Ok s
       /\ create_oracle s = Ok oracle
       /\ In (mkCI (MCXGate 0) [0%nat] []) (Spec.oracle_body 1 "0")
       /\ oracle = Instruction "Oracle (Z_f)" 1 0 (Spec.oracle_body 1 "0")
       /\ forall psi, exists psi',
            apply oracle [0%nat] psi = Some psi'
            /\ forall b, psi' b
                         = if Bool.eqb (line b 0) (String.eqb "0" "1")
                           then Copp (psi b) else psi b.
Proof.
  split; [reflexivity|].
  exact (@create_oracle_one_line "0" (or_introl eq_refl)).
Defined.

(* ------------------------------------------------------------------ *)
(** ** The diffuser (C3) *)

(** C3: for every object built with [n_qubits >= 1], [create_diffuser]
    returns one composite operator, named "Diffuser (D)", on [n_qubits]
    lines, whose body is exactly: H on every line; X on every line; H on
    line n-1, the X on line n-1 controlled by all other lines (by no line
    when n = 1), H on line n-1; X on every line; H on every line. *)
Theorem create_diffuser_every_register (n_qubits : Z) (t : string) (s : self) :
  __init__ n_qubits t = Ok s ->
  (1 <= n_qubits)%Z ->
  create_diffuser s
  = Ok (Instruction "Diffuser (D)" (Z.to_nat n_qubits) 0
          (Spec.on_every_line HGate (Z.to_nat n_qubits)
             ++ Spec.on_every_line XGate (Z.to_nat n_qubits)
             ++ [ Spec.on_line HGate (Z.to_nat n_qubits - 1);
                  mkCI (MCXGate (Z.to_nat n_qubits - 1))
                       (seq 0 (Z.to_nat n_qubits - 1)
                          ++ [(Z.to_nat n_qubits - 1)%nat]) [];
                  Spec.on_line HGate (Z.to_nat n_qubits - 1) ]
             ++ Spec.on_every_line XGate (Z.to_nat n_qubits)
             ++ Spec.on_every_line HGate (Z.to_nat n_qubits))).
Proof.
  intros Hinit Hn. apply init_ok in Hinit. destruct Hinit as [-> ->].
  rewrite Nat2Z.id. apply create_diffuser_lines. lia.
Qed.

Lemma create_diffuser_every_register_witness :
  create_diffuser (mkSelf 1 "0")
  = Ok (Instruction "Diffuser (D)" 1 0
          [ mkCI HGate [0%nat] []; mkCI XGate [0%nat] [];
            mkCI HGate [0%nat] []; mkCI (MCXGate 0) [0%nat] [];
            mkCI HGate [0%nat] [];
            mkCI XGate [0%nat] []; mkCI HGate [0%nat] [] ]).
Proof.
  exact (@create_diffuser_every_register 1 "0" (mkSelf 1 "0") eq_refl
           ltac:(lia)).
Defined.

(** X2: for every object built with
    [n_qubits >= 2], [create_diffuser] returns the operator named
    "Diffuser (D)" on [n_qubits] lines whose body is exactly: H on every
    line, X on every line, the H / multi-controlled X / H sandwich on line
    n-1 with controls 0..n-2, X on every line, H on every line. *)
Theorem create_diffuser_gate_sequence (n_qubits : Z) (t : string) (s : self) :
  __init__ n_qubits t = Ok s ->
  (2 <= n_qubits)%Z ->
  create_diffuser s = Ok (Spec.diffuser (Z.to_nat n_qubits)).
Proof.
  intros Hinit Hn. apply init_ok in Hinit. destruct Hinit as [-> ->].
  rewrite Nat2Z.id. apply create_diffuser_lines. lia.
Qed.

Lemma create_diffuser_gate_sequence_witness :
  create_diffuser (mkSelf 3 "101") = Ok (Spec.diffuser 3).
Proof.
  exact (@create_diffuser_gate_sequence 3 "101" (mkSelf 3 "101") eq_refl
           ltac:(lia)).
Defined.

(* ------------------------------------------------------------------ *)
(** ** The assembled circuit (C4, C10) *)

(** C4: for every object built with [n_qubits >= 1] and every
    [iterations = k >= 0], [build_circuit] returns the circuit on [n_qubits]
    quantum and [n_qubits] classical lines whose placements are exactly: H
    on every line; [k] times the oracle across all lines followed by the
    diffuser across all lines, each the operator its builder returns; a
    measurement of every line [i] into classical line [i].  With [k = 0]
    these are the Hadamards and the measurements only. *)
Theorem build_circuit_every_register
    (n_qubits : Z) (t : string) (s : self) (iterations : Z) :
  __init__ n_qubits t = Ok s ->
  (1 <= n_qubits)%Z ->
  (0 <= iterations)%Z ->
  exists oracle diffuser,
    create_oracle s = Ok oracle
    /\ create_diffuser s = Ok diffuser
    /\ build_circuit s iterations
       = Ok (mkQC (Z.to_nat n_qubits) (Z.to_nat n_qubits)
               (Spec.on_every_line HGate (Z.to_nat n_qubits)
                  ++ List.concat
                       (repeat [ mkCI oracle (seq 0 (Z.to_nat n_qubits)) [];
                                 mkCI diffuser (seq 0 (Z.to_nat n_qubits)) [] ]
                               (Z.to_nat iterations))
                  ++ Spec.measurements (Z.to_nat n_qubits)))
    /\ (iterations = 0%Z ->
        build_circuit s iterations
        = Ok (mkQC (Z.to_nat n_qubits) (Z.to_nat n_qubits)
                (Spec.on_every_line HGate (Z.to_nat n_qubits)
                   ++ Spec.measurements (Z.to_nat n_qubits)))).
Proof.
  intros Hinit Hn Hk. apply init_ok in Hinit. destruct Hinit as [-> ->].
  rewrite Nat2Z.id.
  exists (Spec.oracle (String.length t) t), (Spec.diffuser (String.length t)).
  split; [apply create_oracle_lines; lia|].
  split; [apply create_diffuser_lines; lia|].
  rewrite build_circuit_lines by lia.
  split; [reflexivity|]. intros ->. reflexivity.
Qed.

Lemma build_circuit_every_register_witness :
  build_circuit (mkSelf 1 "0") 0
  = Ok (mkQC 1 1 [ mkCI HGate [0%nat] []; mkCI Measure [0%nat] [0%nat] ])
  /\ exists oracle diffuser,
       create_oracle (mkSelf 1 "0") = Ok oracle
       /\ create_diffuser (mkSelf 1 "0") = Ok diffuser
       /\ build_circuit (mkSelf 1 "0") 2
          = Ok (mkQC 1 1
                  ([ mkCI HGate [0%nat] [] ]
                     ++ [ mkCI oracle [0%nat] []; mkCI diffuser [0%nat] [];
                          mkCI oracle [0%nat] []; mkCI diffuser [0%nat] [] ]
                     ++ [ mkCI Measure [0%nat] [0%nat] ])).
Proof.
  split.
  - destruct (@build_circuit_every_register 1 "0" (mkSelf 1 "0") 0 eq_refl
                ltac:(lia) ltac:(lia)) as [o [d [_ [_ [_ H0]]]]].
    exact (H0 eq_refl).
  - destruct (@build_circuit_every_register 1 "0" (mkSelf 1 "0") 2 eq_refl
                ltac:(lia) ltac:(lia)) as [o [d [Ho [Hd [Hb _]]]]].
    exists o, d. split; [exact Ho|]. split; [exact Hd|]. exact Hb.
Defined.

(** X3: for every object built with
    [n_qubits >= 2] and every integer [iterations], [build_circuit] returns
    the circuit on [n_qubits] quantum and [n_qubits] classical lines whose
    placements are exactly: H on every line; [iterations] times (no times
    for a negative count) the oracle across all lines followed by the
    diffuser across all lines; a measurement of every line [i] into
    classical line [i]. *)
Theorem build_circuit_gate_sequence
    (n_qubits : Z) (t : string) (s : self) (iterations : Z) :
  __init__ n_qubits t = Ok s ->
  (2 <= n_qubits)%Z ->
  build_circuit s iterations
  = Ok (Spec.circuit (Z.to_nat n_qubits) t (Z.to_nat iterations)).
Proof.
  intros Hinit Hn. apply init_ok in Hinit. destruct Hinit as [-> ->].
  rewrite Nat2Z.id. apply build_circuit_lines. lia.
Qed.

Lemma build_circuit_gate_sequence_witness :
  build_circuit (mkSelf 3 "101") 2 = Ok (Spec.circuit 3 "101" 2).
Proof.
  exact (@build_circuit_gate_sequence 3 "101" (mkSelf 3 "101") 2 eq_refl
           ltac:(lia)).
Defined.

(** C10: for every object built with [n_qubits >= 1] and every negative
    [iterations], [build_circuit] raises nothing and returns what it returns
    for zero iterations: H on every line and the measurements, no oracle and
    no diffuser. *)
Theorem build_circuit_negative_as_zero
    (n_qubits : Z) (t : string) (s : self) (iterations : Z) :
  __init__ n_qubits t = Ok s ->
  (1 <= n_qubits)%Z ->
  (iterations < 0)%Z ->
  build_circuit s iterations = build_circuit s 0
  /\ build_circuit s iterations
     = Ok (mkQC (Z.to_nat n_qubits) (Z.to_nat n_qubits)
             (Spec.on_every_line HGate (Z.to_nat n_qubits)
                ++ Spec.measurements (Z.to_nat n_qubits))).
Proof.
  intros Hinit Hn Hk. apply init_ok in Hinit. destruct Hinit as [-> ->].
  rewrite Nat2Z.id, !build_circuit_lines by lia.
  replace (Z.to_nat iterations) with 0%nat by lia.
  split; reflexivity.
Qed.

Lemma build_circuit_negative_as_zero_witness :
  build_circuit (mkSelf 1 "1") (-1) = build_circuit (mkSelf 1 "1") 0
  /\ build_circuit (mkSelf 1 "1") (-1)
     = Ok (mkQC 1 1 (Spec.on_every_line HGate 1 ++ Spec.measurements 1)).
Proof.
  exact (@build_circuit_negative_as_zero 1 "1" (mkSelf 1 "1") (-1) eq_refl
           ltac:(lia) ltac:(lia)).
Defined.

(** X4: for every object built with
    [n_qubits >= 2] and every negative [iterations], [build_circuit] raises
    nothing and returns what it returns for zero iterations: H on every line
    and the measurements, no oracle and no diffuser. *)
Theorem build_circuit_negative_iterations
    (n_qubits : Z) (t : string) (s : self) (iterations : Z) :
  __init__ n_qubits t = Ok s ->
  (2 <= n_qubits)%Z ->
  (iterations < 0)%Z ->
  build_circuit s iterations = build_circuit s 0
  /\ build_circuit s iterations
     = Ok (mkQC (Z.to_nat n_qubits) (Z.to_nat n_qubits)
             (Spec.on_every_line HGate (Z.to_nat n_qubits)
                ++ Spec.measurements (Z.to_nat n_qubits))).
Proof.
  intros Hinit Hn Hk. apply init_ok in Hinit. destruct Hinit as [-> ->].
  rewrite Nat2Z.id, !build_circuit_lines by lia.
  replace (Z.to_nat iterations) with 0%nat by lia.
  split; reflexivity.
Qed.

Lemma build_circuit_negative_iterations_witness :
  build_circuit (mkSelf 2 "10") (-3) = build_circuit (mkSelf 2 "10") 0
  /\ build_circuit (mkSelf 2 "10") (-3)
     = Ok (mkQC 2 2 (Spec.on_every_line HGate 2 ++ Spec.measurements 2)).
Proof.
  exact (@build_circuit_negative_iterations 2 "10" (mkSelf 2 "10") (-3) eq_refl
           ltac:(lia) ltac:(lia)).
Defined.

(* ------------------------------------------------------------------ *)
(** ** Self-inverse operators (C8) *)

(** C8: every oracle operator [create_oracle] returns and every diffuser
    operator [create_diffuser] returns, those on a single line included, is
    self-inverse.  Both builders return an operator for every
    [n_qubits >= 1]; placed across all lines and applied twice in sequence,
    the operator takes any register state back to itself: every basis
    state, the target included, gets its original amplitude and sign
    back. *)
Theorem operators_self_inverse (n_qubits : Z) (t : string) (s : self) :
  __init__ n_qubits t = Ok s ->
  ((1 <= n_qubits)%Z ->
   exists oracle diffuser,
     create_oracle s = Ok oracle /\ create_diffuser s = Ok diffuser)
  /\ (forall oracle, create_oracle s = Ok oracle ->
     forall psi, exists psi',
       apply oracle (all_lines n_qubits) psi = Some psi'
       /\ apply oracle (all_lines n_qubits) psi' = Some psi)
  /\ (forall diffuser, create_diffuser s = Ok diffuser ->
     forall psi, exists psi',
       apply diffuser (all_lines n_qubits) psi = Some psi'
       /\ apply diffuser (all_lines n_qubits) psi' = Some psi).
Proof.
  intros Hinit. apply init_ok in Hinit. destruct Hinit as [-> ->].
  unfold all_lines. rewrite Nat2Z.id. split; [|split].
  - intros Hn. eexists. eexists.
    split; [apply create_oracle_lines | apply create_diffuser_lines]; lia.
  - intros oracle Ho psi.
    assert (Hn : (1 <= String.length t)%nat)
      by (apply builders_need_a_line; left; eauto).
    rewrite create_oracle_lines in Ho by exact Hn. injection Ho as <-.
    apply oracle_twice. exact Hn.
  - intros diffuser Hd psi.
    assert (Hn : (1 <= String.length t)%nat)
      by (apply builders_need_a_line; right; left; eauto).
    rewrite create_diffuser_lines in Hd by exact Hn. injection Hd as <-.
    apply diffuser_twice. exact Hn.
Qed.

Lemma operators_self_inverse_witness :
  (exists oracle, create_oracle (mkSelf 1 "0") = Ok oracle
     /\ forall psi, exists psi',
          apply oracle (all_lines 1) psi = Some psi'
          /\ apply oracle (all_lines 1) psi' = Some psi)
  /\ (exists diffuser, create_diffuser (mkSelf 3 "101") = Ok diffuser
     /\ forall psi, exists psi',
          apply diffuser (all_lines 3) psi = Some psi'
          /\ apply diffuser (all_lines 3) psi' = Some psi).
Proof.
  split.
  - exists (Spec.oracle 1 "0"). split; [reflexivity|].
    apply (proj1 (proj2
             (@operators_self_inverse 1 "0" (mkSelf 1 "0") eq_refl))).
    reflexivity.
  - exists (Spec.diffuser 3). split; [reflexivity|].
    apply (proj2 (proj2
             (@operators_self_inverse 3 "101" (mkSelf 3 "101") eq_refl))).
    reflexivity.
Defined.

(** X7: what the oracle does.  Every operator [create_oracle] returns,
    placed across all lines, changes the sign of the amplitude of the basis
    state that carries the target's bits (line [i] = the character [i]
    places from the right end of the target) and leaves the amplitude of
    every other basis state as it is. *)
Theorem oracle_marks_target (n_qubits : Z) (t : string) (s : self) :
  __init__ n_qubits t = Ok s ->
  forall oracle, create_oracle s = Ok oracle ->
  forall psi, exists psi',
    apply oracle (all_lines n_qubits) psi = Some psi'
    /\ forall b, psi' b = if encodes t (Z.to_nat n_qubits) b
                          then Copp (psi b) else psi b.
Proof.
  intros Hinit oracle Ho psi.
  apply init_ok in Hinit. destruct Hinit as [-> ->].
  unfold all_lines. rewrite Nat2Z.id.
  assert (Hn : (1 <= String.length t)%nat)
    by (apply builders_need_a_line; left; eauto).
  rewrite create_oracle_lines in Ho by exact Hn. injection Ho as <-.
  eexists. split; [apply apply_oracle; exact Hn|].
  intros b. apply oracle_phase. exact Hn.
Qed.

Lemma oracle_marks_target_witness :
  encodes "101" 3 5 = true
  /\ encodes "101" 3 4 = false
  /\ exists oracle, create_oracle (mkSelf 3 "101") = Ok oracle
     /\ forall psi, exists psi',
          apply oracle (all_lines 3) psi = Some psi'
          /\ forall b, psi' b = if encodes "101" (Z.to_nat 3) b
                                then Copp (psi b) else psi b.
Proof.
  split; [reflexivity|]. split; [reflexivity|].
  exists (Spec.oracle 3 "101"). split; [reflexivity|].
  exact (@oracle_marks_target 3 "101" (mkSelf 3 "101") eq_refl
           (Spec.oracle 3 "101") eq_refl).
Defined.

(* ------------------------------------------------------------------ *)
(** ** Determinism (C9) *)

Lemma on_bind {B : Type} (method : QuantumCircuit -> result QuantumCircuit)
    (qc : Named.NamedCircuit) (k : Named.NamedCircuit -> Named.M B)
    (names : Named.supply) :
  Named.bindM (Named.on method qc) k names
  = match method (Named.circuit qc) with
    | Ok qc' => k (Named.mkNamed (Named.name qc) qc') names
    | Raise e => (Raise e, names)
    end.
Proof.
  unfold Named.bindM, Named.on. now destruct (method (Named.circuit qc)).
Qed.

(** With the names left out of the circuits, the operators are those of
    [GroverAlgorithm]: the name the circuit had is overwritten. *)
Lemma named_oracle (s : self) (names : Named.supply) :
  exists names',
    Named.create_oracle s names = (create_oracle s, names').
Proof.
  unfold Named.create_oracle, create_oracle.
  unfold Named.bindM at 1, Named.new.
  destruct (new (n s) 0) as [qc|e]; cbn [bind]; [|eexists; reflexivity].
  do 5 (rewrite on_bind; cbn [Named.circuit Named.name];
      match goal with
      | |- context [bind ?r _] =>
          destruct r; cbn [bind]; [|eexists; reflexivity]
      end).
  eexists. reflexivity.
Qed.

Lemma named_diffuser (s : self) (names : Named.supply) :
  exists names',
    Named.create_diffuser s names = (create_diffuser s, names').
Proof.
  unfold Named.create_diffuser, create_diffuser.
  unfold Named.bindM at 1, Named.new.
  destruct (new (n s) 0) as [qc|e]; cbn [bind]; [|eexists; reflexivity].
  do 7 (rewrite on_bind; cbn [Named.circuit Named.name];
      match goal with
      | |- context [bind ?r _] =>
          destruct r; cbn [bind]; [|eexists; reflexivity]
      end).
  eexists. reflexivity.
Qed.

(** The circuit [build_circuit] returns is the one of [GroverAlgorithm]
    under the first name drawn. *)
Lemma named_circuit (s : self) (iterations : Z) (names : Named.supply) :
  exists names',
    Named.build_circuit s iterations names
    = (match build_circuit s iterations with
       | Ok qc => Ok (Named.mkNamed (names 0%nat) qc)
       | Raise e => Raise e
       end, names').
Proof.
  unfold Named.build_circuit, build_circuit.
  unfold Named.bindM at 1, Named.new.
  destruct (new (n s) (n s)) as [qc|e]; cbn [bind]; [|eexists; reflexivity].
  do 1 (rewrite on_bind; cbn [Named.circuit Named.name];
      match goal with
      | |- context [bind ?r _] =>
          destruct r; cbn [bind]; [|eexists; reflexivity]
      end).
  unfold Named.bindM at 1.
  destruct (named_oracle s (fun i => names (S i))) as [names1 ->].
  destruct (create_oracle s) as [oracle|e]; cbn [bind];
    [|eexists; reflexivity].
  unfold Named.bindM at 1.
  destruct (named_diffuser s names1) as [names2 ->].
  destruct (create_diffuser s) as [diffuser|e]; cbn [bind];
    [|eexists; reflexivity].
  do 2 (rewrite on_bind; cbn [Named.circuit Named.name];
      match goal with
      | |- context [bind ?r _] =>
          destruct r; cbn [bind]; [|eexists; reflexivity]
      end).
  eexists. reflexivity.
Qed.

Lemma anonymous_inj (i j : nat) :
  Named.anonymous i = Named.anonymous j -> i = j.
Proof.
  unfold Named.anonymous. intros H.
  cbn [String.append] in H. injection H as H.
  apply (f_equal NilEmpty.uint_of_string) in H.
  rewrite !NilEmpty.usu in H. injection H as H.
  apply (f_equal Nat.of_uint) in H.
  now rewrite !Unsigned.of_to in H.
Qed.

(** C9: the builders are deterministic.  Whatever names Qiskit hands out
    (the supplies [names1], [names2] of two calls, on the same object or on
    two objects built from the same arguments): [create_oracle] returns the
    same operator, name and body, and so does [create_diffuser];
    [build_circuit] returns circuits with the same lines and the same
    placements, or raises the same exception, and so do two calls made one
    after the other; all three results are those of [GroverAlgorithm],
    which has no state.  What differs between two circuits is their own
    name only: each carries the name it drew, so under Qiskit's numbering
    no two of them have the same. *)
Theorem assemble_deterministic
    (n_qubits : Z) (t : string) (s1 s2 : self) (iterations : Z)
    (names1 names2 : Named.supply) :
  __init__ n_qubits t = Ok s1 ->
  __init__ n_qubits t = Ok s2 ->
  fst (Named.create_oracle s1 names1) = fst (Named.create_oracle s2 names2)
  /\ fst (Named.create_diffuser s1 names1)
     = fst (Named.create_diffuser s2 names2)
  /\ Named.structure (fst (Named.build_circuit s1 iterations names1))
     = Named.structure (fst (Named.build_circuit s2 iterations names2))
  /\ Named.structure (fst (Named.build_circuit s1 iterations names1))
     = Named.structure
         (fst (Named.build_circuit s1 iterations
                 (snd (Named.build_circuit s1 iterations names1))))
  /\ (fst (Named.create_oracle s1 names1) = create_oracle s1
      /\ fst (Named.create_diffuser s1 names1) = create_diffuser s1
      /\ Named.structure (fst (Named.build_circuit s1 iterations names1))
         = build_circuit s1 iterations)
  /\ (forall qc1 qc2,
        fst (Named.build_circuit s1 iterations names1) = Ok qc1 ->
        fst (Named.build_circuit s2 iterations names2) = Ok qc2 ->
        Named.name qc1 = names1 0%nat /\ Named.name qc2 = names2 0%nat
        /\ forall k1 k2, names1 0%nat = Named.anonymous k1 ->
                         names2 0%nat = Named.anonymous k2 ->
                         k1 <> k2 -> qc1 <> qc2).
Proof.
  intros H1 H2. apply init_ok in H1, H2.
  destruct H1 as [-> ->], H2 as [-> _].
  set (s := mkSelf (Z.of_nat (String.length t)) t).
  assert (Hb : forall names,
             Named.structure (fst (Named.build_circuit s iterations names))
             = build_circuit s iterations).
  { intros names. destruct (named_circuit s iterations names) as [k' ->].
    cbn [fst]. now destruct (build_circuit s iterations). }
  assert (Ho : forall names,
             fst (Named.create_oracle s names) = create_oracle s)
    by (intros names; now destruct (named_oracle s names) as [k' ->]).
  assert (Hd : forall names,
             fst (Named.create_diffuser s names) = create_diffuser s)
    by (intros names; now destruct (named_diffuser s names) as [k' ->]).
  split; [now rewrite !Ho|]. split; [now rewrite !Hd|].
  split; [now rewrite !Hb|]. split; [now rewrite !Hb|].
  split; [auto|].
  intros qc1 qc2 Hq1 Hq2.
  destruct (named_circuit s iterations names1) as [k1' E1].
  destruct (named_circuit s iterations names2) as [k2' E2].
  rewrite E1 in Hq1. rewrite E2 in Hq2. cbn [fst] in Hq1, Hq2.
  destruct (build_circuit s iterations); [|discriminate].
  injection Hq1 as <-. injection Hq2 as <-. cbn [Named.name].
  split; [reflexivity|]. split; [reflexivity|].
  intros k1 k2 E1' E2' Hk Heq. injection Heq as Heq.
  rewrite E1', E2' in Heq. now apply anonymous_inj in Heq.
Qed.

Lemma assemble_deterministic_witness :
  fst (Named.build_circuit (mkSelf 1 "0") 1 (Named.numbered 4 1))
  = Ok (Named.mkNamed "circuit-4" (Spec.circuit 1 "0" 1))
  /\ fst (Named.build_circuit (mkSelf 1 "0") 1 (Named.numbered 9 2))
     = Ok (Named.mkNamed "circuit-9" (Spec.circuit 1 "0" 1))
  /\ Named.structure
       (fst (Named.build_circuit (mkSelf 1 "0") 1 (Named.numbered 4 1)))
     = Named.structure
         (fst (Named.build_circuit (mkSelf 1 "0") 1 (Named.numbered 9 2)))
  /\ fst (Named.create_oracle (mkSelf 1 "0") (Named.numbered 4 1))
     = fst (Named.create_oracle (mkSelf 1 "0") (Named.numbered 9 2)).
Proof.
  split; [reflexivity|]. split; [reflexivity|].
  pose proof (@assemble_deterministic 1 "0" (mkSelf 1 "0") (mkSelf 1 "0") 1
                (Named.numbered 4 1) (Named.numbered 9 2) eq_refl eq_refl)
    as [Ho [_ [Hb _]]].
  split; [exact Hb | exact Ho].
Defined.

(* ------------------------------------------------------------------ *)
(** ** The iteration planner (C5) *)

Import Main.

Lemma round_to_float_raises m e x :
  round_to_float m e = Raise x -> x = OverflowError.
Proof.
  unfold round_to_float.
  destruct (binary_normalize prec emax m e false); congruence.
Qed.

Lemma pow2_raises n x : pow2 n = Raise x -> x = OverflowError.
Proof.
  unfold pow2, int_to_float. destruct (0 <=? n)%Z; [discriminate|].
  destruct (round_to_float n 0) eqn:Hr; cbn [bind]; [discriminate|].
  intros [= <-]. eauto using round_to_float_raises.
Qed.

Lemma truediv_raises a N x :
  truediv a N = Raise x -> x = ZeroDivisionError \/ x = OverflowError.
Proof.
  destruct N as [b|b]; cbn [truediv].
  - unfold int_true_divide.
    destruct (b =? 0)%Z; [intros [= <-]; auto|].
    destruct (a =? 0)%Z; [discriminate|].
    intros H. right. eauto using round_to_float_raises.
  - unfold int_to_float. destruct (round_to_float a 0) eqn:Hr; cbn [bind].
    + destruct (b =? 0)%float; [intros [= <-]; auto | discriminate].
    + intros [= <-]. right. eauto using round_to_float_raises.
Qed.

Lemma math_1_raises x r e : math_1 x r = Raise e -> e = ValueError.
Proof.
  unfold math_1.
  destruct (is_nan r && negb (is_nan x))%bool; [congruence|].
  destruct (is_infinity r && is_finite x)%bool; congruence.
Qed.

(** Before the arc sine the function either raises one of the arithmetic's
    own exceptions or raises nothing. *)
Lemma before_asin_arithmetic_only n s e :
  raised_before_asin (calculate_optimal_iterations n s) = Some e ->
  e = ValueError \/ e = ZeroDivisionError \/ e = OverflowError.
Proof.
  unfold calculate_optimal_iterations.
  destruct (pow2 n) as [N|x] eqn:Hp; cbn [bind].
  - destruct (truediv s N) as [q|x] eqn:Hd; cbn [bind].
    + unfold math_sqrt. destruct (math_1 q (PrimFloat.sqrt q)) eqn:Hs;
        cbn [raised_before_asin]; [discriminate|].
      intros [= <-]. left. eauto using math_1_raises.
    + cbn [raised_before_asin]. intros [= <-].
      destruct (truediv_raises _ _ Hd); auto.
  - cbn [raised_before_asin]. intros [= <-].
    right; right. eauto using pow2_raises.
Qed.

Lemma pow2_nonneg n : (0 <= n)%Z -> pow2 n = Ok (PyInt (2 ^ n)).
Proof.
  intros Hn. unfold pow2.
  now replace (0 <=? n)%Z with true by (symmetry; apply Z.leb_le; exact Hn).
Qed.

(** No solutions out of [2^n]: the quotient is [0.0], whose root is [0.0]. *)
Lemma zero_solutions_reach_asin n :
  (0 <= n)%Z ->
  exists k, calculate_optimal_iterations n 0 = Asin 0 k
            /\ k zero = Done (Raise ZeroDivisionError)
            /\ k neg_zero = Done (Raise ZeroDivisionError).
Proof.
  intros Hn. unfold calculate_optimal_iterations.
  rewrite pow2_nonneg by exact Hn. cbn [bind truediv].
  unfold int_true_divide.
  assert (Hp : (0 < 2 ^ n)%Z) by (apply Z.pow_pos_nonneg; lia).
  replace (2 ^ n =? 0)%Z with false by (symmetry; apply Z.eqb_neq; lia).
  replace (2 ^ n <? 0)%Z with false by (symmetry; apply Z.ltb_ge; lia).
  cbn [Z.eqb bind].
  change (math_sqrt zero) with (Ok zero).
  eexists. split; [reflexivity|]. split; vm_compute; reflexivity.
Qed.

(** All [2^n] states marked: the quotient is exactly [1.0]. *)
Lemma all_solutions_quotient n :
  (0 <= n)%Z -> int_true_divide (2 ^ n) (2 ^ n) = Ok 1%float.
Proof.
  intros Hn. unfold int_true_divide.
  assert (Hp : (0 < 2 ^ n)%Z) by (apply Z.pow_pos_nonneg; lia).
  replace (2 ^ n =? 0)%Z with false by (symmetry; apply Z.eqb_neq; lia).
  replace (2 ^ n <? 0)%Z with false by (symmetry; apply Z.ltb_ge; lia).
  rewrite Z.abs_eq, Z.sub_diag by lia.
  change (Z.max 0 (0 + 56)) with 56%Z.
  rewrite (Z.mul_comm (2 ^ n)), Z.div_mul, Z.mod_mul by lia.
  vm_compute. reflexivity.
Qed.

(** The function after the arc sine has answered with [r], for root [root]. *)
Lemma after_asin (root : float) (k : float -> libm Z) (asin : float -> float) :
  run asin (Asin root k) = run asin (k (asin root)).
Proof. reflexivity. Qed.

(** C5, as stated, fails.  The claim wants an exception before any
    trigonometric computation for every register size [<= 0] and every
    number of solutions outside [1, 2^n].  The code has no such test: for
    [n_qubits = 0, n_solutions = 1] (zero register size), for
    [n_qubits = 1, n_solutions = 0] and for [n_qubits = 1, n_solutions = 3]
    nothing is raised before [math.asin] is called. *)
Lemma planner_reaches_asin_out_of_range :
  raised_before_asin (calculate_optimal_iterations 0 1) = None
  /\ raised_before_asin (calculate_optimal_iterations 1 0) = None
  /\ raised_before_asin (calculate_optimal_iterations 1 3) = None.
Proof. repeat split; vm_compute; reflexivity. Qed.

(** C5, amended: [calculate_optimal_iterations] validates nothing and has no
    error of its own.  Whatever it raises before [math.asin] is called is one
    of the arithmetic's exceptions ([ValueError], "math domain error", from
    [math.sqrt]; [ZeroDivisionError]; [OverflowError]).  Out-of-range
    arguments are not stopped there: with no solutions ([n_solutions = 0],
    any [n_qubits >= 0]) the arc sine of [0.0] is taken and the division by
    [4 * 0.0] that follows raises [ZeroDivisionError]; with a register of
    size zero and one solution the function returns 0.  ([asin] is the C
    library's arc sine, with its values at 0 and 1.) *)
Theorem planner_does_not_validate
    (n_qubits n_solutions : Z) (asin : float -> float) :
  asin 0%float = 0%float ->
  asin 1%float = asin_1 ->
  (forall e,
     raised_before_asin (calculate_optimal_iterations n_qubits n_solutions)
       = Some e ->
     e = ValueError \/ e = ZeroDivisionError \/ e = OverflowError)
  /\ ((0 <= n_qubits)%Z ->
      raised_before_asin (calculate_optimal_iterations n_qubits 0) = None
      /\ run asin (calculate_optimal_iterations n_qubits 0)
         = Raise ZeroDivisionError)
  /\ (raised_before_asin (calculate_optimal_iterations 0 1) = None
      /\ run asin (calculate_optimal_iterations 0 1) = Ok 0%Z).
Proof.
  intros H0 H1. split; [|split].
  - intros e. apply before_asin_arithmetic_only.
  - intros Hn. destruct (zero_solutions_reach_asin Hn) as [k [Hk [Hz _]]].
    rewrite Hk. split; [reflexivity|].
    rewrite after_asin, H0. change (0%float) with zero.
    rewrite Hz. reflexivity.
  - split; [vm_compute; reflexivity|].
    assert (Hc : calculate_optimal_iterations 0 1
                 = Asin 1 (fun r =>
                     Done (theta <- math_1 1 r ;;
                           quarter <- float_div pi (4 * theta)%float ;;
                           py_round (quarter - 0.5)%float)))
      by reflexivity.
    rewrite Hc, after_asin, H1. vm_compute. reflexivity.
Qed.

Lemma planner_does_not_validate_witness :
  (forall e,
     raised_before_asin (calculate_optimal_iterations 3 (-1)) = Some e ->
     e = ValueError \/ e = ZeroDivisionError \/ e = OverflowError)
  /\ ((0 <= 3)%Z ->
      raised_before_asin (calculate_optimal_iterations 3 0) = None
      /\ run table_asin (calculate_optimal_iterations 3 0)
         = Raise ZeroDivisionError)
  /\ (raised_before_asin (calculate_optimal_iterations 0 1) = None
      /\ run table_asin (calculate_optimal_iterations 0 1) = Ok 0%Z).
Proof.
  exact (@planner_does_not_validate 3 (-1) table_asin eq_refl eq_refl).
Defined.

(* ------------------------------------------------------------------ *)
(** ** The planner's values in double precision *)

(** X5: the three example values of the specification, as the code computes
    them in doubles.  With an arc sine accurate to the last bit at 1, 1/2 and
    1/4: [calculate_optimal_iterations(2, 1) = 1],
    [calculate_optimal_iterations(4, 1) = 3], and
    [calculate_optimal_iterations(n, 2^n) = 0] for every [n >= 0]. *)
Theorem optimal_iterations_examples (asin : float -> float) :
  within_one_ulp asin_1 (asin 1%float) ->
  within_one_ulp asin_half (asin 0.5%float) ->
  within_one_ulp asin_quarter (asin 0.25%float) ->
  run asin (calculate_optimal_iterations 2 1) = Ok 1%Z
  /\ run asin (calculate_optimal_iterations 4 1) = Ok 3%Z
  /\ (forall n, (0 <= n)%Z ->
        run asin (calculate_optimal_iterations n (2 ^ n)) = Ok 0%Z).
Proof.
  intros H1 Hh Hq. split; [|split].
  - assert (Hc : calculate_optimal_iterations 2 1
                 = Asin 0.5 (fun r =>
                     Done (theta <- math_1 0.5 r ;;
                           quarter <- float_div pi (4 * theta)%float ;;
                           py_round (quarter - 0.5)%float)))
      by reflexivity.
    rewrite Hc, after_asin.
    destruct Hh as [->|[->| ->]]; vm_compute; reflexivity.
  - assert (Hc : calculate_optimal_iterations 4 1
                 = Asin 0.25 (fun r =>
                     Done (theta <- math_1 0.25 r ;;
                           quarter <- float_div pi (4 * theta)%float ;;
                           py_round (quarter - 0.5)%float)))
      by reflexivity.
    rewrite Hc, after_asin.
    destruct Hq as [->|[->| ->]]; vm_compute; reflexivity.
  - intros n Hn. unfold calculate_optimal_iterations.
    rewrite pow2_nonneg by exact Hn. cbn [bind truediv].
    rewrite all_solutions_quotient by exact Hn. cbn [bind].
    change (math_sqrt 1) with (Ok 1%float). cbv iota.
    rewrite after_asin.
    destruct H1 as [->|[->| ->]]; vm_compute; reflexivity.
Qed.

Lemma optimal_iterations_examples_witness :
  run table_asin (calculate_optimal_iterations 2 1) = Ok 1%Z
  /\ run table_asin (calculate_optimal_iterations 4 1) = Ok 3%Z
  /\ (forall n, (0 <= n)%Z ->
        run table_asin (calculate_optimal_iterations n (2 ^ n)) = Ok 0%Z).
Proof.
  apply optimal_iterations_examples; right; left; reflexivity.
Defined.

(** X6: the double quotient [1 / 2^n] is [0.0] from [n = 1075] on, the arc
    sine of a zero root is zero, and the division by [4 * 0.0] raises: for
    one solution among [2^1075] (or [2^1100]) states the function ends in
    [ZeroDivisionError] and returns no iteration count. *)
Theorem optimal_iterations_underflow (asin : float -> float) :
  asin 0%float = 0%float ->
  run asin (calculate_optimal_iterations 1075 1) = Raise ZeroDivisionError
  /\ run asin (calculate_optimal_iterations 1100 1) = Raise ZeroDivisionError.
Proof.
  intros H0. split.
  - assert (Hc : calculate_optimal_iterations 1075 1
                 = Asin 0 (fun r =>
                     Done (theta <- math_1 0 r ;;
                           quarter <- float_div pi (4 * theta)%float ;;
                           py_round (quarter - 0.5)%float)))
      by (vm_compute; reflexivity).
    rewrite Hc, after_asin, H0. vm_compute. reflexivity.
  - assert (Hc : calculate_optimal_iterations 1100 1
                 = Asin 0 (fun r =>
                     Done (theta <- math_1 0 r ;;
                           quarter <- float_div pi (4 * theta)%float ;;
                           py_round (quarter - 0.5)%float)))
      by (vm_compute; reflexivity).
    rewrite Hc, after_asin, H0. vm_compute. reflexivity.
Qed.

Lemma optimal_iterations_underflow_witness :
  run table_asin (calculate_optimal_iterations 1075 1) = Raise ZeroDivisionError
  /\ run table_asin (calculate_optimal_iterations 1100 1) = Raise ZeroDivisionError.
Proof.
  exact (@optimal_iterations_underflow table_asin eq_refl).
Defined.

(* ------------------------------------------------------------------ *)
(** ** The iteration count in double precision (C1) *)








(* ================================================================== *)
(** * Further properties of [logic.py] *)

(* ------------------------------------------------------------------ *)
(** ** Characters other than '0' *)

Lemma length_as_bits (t : string) : String.length (as_bits t) = String.length t.
Proof. induction t as [|c t IH]; simpl; congruence. Qed.

Lemma get_as_bits (t : string) (k : nat) :
  String.get k (as_bits t) = option_map as_bit (String.get k t).
Proof.
  revert k. induction t as [|c t IH]; intros [|k]; simpl; auto.
Qed.

Lemma as_bit_zero (c : ascii) : Ascii.eqb (as_bit c) "0" = Ascii.eqb c "0".
Proof. unfold as_bit. now destruct (Ascii.eqb c "0") eqn:E. Qed.

Lemma is_zero_bit_as_bits (t : string) (i : nat) :
  Spec.is_zero_bit (as_bits t) i = Spec.is_zero_bit t i.
Proof.
  unfold Spec.is_zero_bit, Spec.target_bit.
  rewrite length_as_bits, get_as_bits.
  destruct (String.get _ t); simpl; [apply as_bit_zero | reflexivity].
Qed.

Lemma oracle_as_bits (n : nat) (t : string) :
  Spec.oracle n (as_bits t) = Spec.oracle n t.
Proof.
  unfold Spec.oracle, Spec.oracle_body, Spec.bit_flips.
  replace (filter (Spec.is_zero_bit (as_bits t)) (seq 0 n))
    with (filter (Spec.is_zero_bit t) (seq 0 n)); [reflexivity|].
  apply filter_ext. intros i. symmetry. apply is_zero_bit_as_bits.
Qed.

(** X8: the builders tell '0' from every other character and nothing more.
    A target gives the same oracle and the same circuit as the target in
    which every character other than '0' is replaced by '1': a target such
    as "1a" is accepted and marks the state "11". *)
Theorem builders_read_nonzero_as_one
    (n_qubits : Z) (t : string) (s s' : self) (iterations : Z) :
  __init__ n_qubits t = Ok s ->
  __init__ n_qubits (as_bits t) = Ok s' ->
  create_oracle s = create_oracle s'
  /\ build_circuit s iterations = build_circuit s' iterations.
Proof.
  intros H1 H2. apply init_ok in H1, H2.
  destruct H1 as [-> ->], H2 as [-> _].
  destruct (String.length t) as [|m] eqn:Hlen.
  - destruct t; [|discriminate]. split; reflexivity.
  - rewrite <- Hlen.
    assert (Hn : (1 <= String.length t)%nat) by lia.
    assert (Hn' : (1 <= String.length (as_bits t))%nat)
      by now rewrite length_as_bits.
    pose proof (create_oracle_lines (as_bits t) Hn') as Ho'.
    pose proof (build_circuit_lines (as_bits t) iterations Hn') as Hb'.
    rewrite length_as_bits in Ho', Hb'.
    rewrite create_oracle_lines, build_circuit_lines, Ho', Hb' by exact Hn.
    unfold Spec.circuit, Spec.round.
    now rewrite oracle_as_bits.
Qed.

Lemma builders_read_nonzero_as_one_witness :
  as_bits "1a" = "11"%string
  /\ (exists oracle, create_oracle (mkSelf 2 "11") = Ok oracle)
  /\ create_oracle (mkSelf 2 "1a") = create_oracle (mkSelf 2 "11")
  /\ build_circuit (mkSelf 2 "1a") 1 = build_circuit (mkSelf 2 "11") 1.
Proof.
  split; [reflexivity|]. split; [eexists; reflexivity|].
  exact (@builders_read_nonzero_as_one 2 "1a" (mkSelf 2 "1a") (mkSelf 2 "11") 1
           eq_refl eq_refl).
Defined.

(* ------------------------------------------------------------------ *)
(** ** The diffuser and the oracle of the all-zero target *)

Lemma length_zeros (n : nat) : String.length (zeros n) = n.
Proof. induction n as [|n IH]; simpl; congruence. Qed.

Lemma get_zeros (n k : nat) :
  (k < n)%nat -> String.get k (zeros n) = Some "0"%char.
Proof.
  revert k. induction n as [|n IH]; intros k Hk; [lia|].
  destruct k as [|k]; simpl; [reflexivity|]. apply IH. lia.
Qed.

Lemma is_zero_bit_zeros (n i : nat) :
  (i < n)%nat -> Spec.is_zero_bit (zeros n) i = true.
Proof.
  intros Hi. unfold Spec.is_zero_bit, Spec.target_bit.
  rewrite length_zeros, get_zeros by lia. reflexivity.
Qed.

Lemma filter_all (A : Type) (f : A -> bool) (l : list A) :
  (forall a, In a l -> f a = true) -> filter f l = l.
Proof.
  induction l as [|a l IH]; intros H; cbn [filter]; [reflexivity|].
  rewrite H by (now left). f_equal. apply IH. intros a' Ha'. apply H. now right.
Qed.

Lemma zero_bit_lines_zeros (n : nat) :
  filter (Spec.is_zero_bit (zeros n)) (seq 0 n) = seq 0 n.
Proof.
  apply filter_all. intros i Hi. apply in_seq in Hi.
  apply is_zero_bit_zeros. lia.
Qed.

(** X9: the diffuser is the oracle of the all-zero target between two
    Hadamard layers (the docstring's [D = H^n * Z_OR * H^n]).  For
    [n_qubits >= 2] the body of the operator [create_diffuser] returns is: H
    on every line, then the body of the oracle [create_oracle] returns for
    the target "00...0", then H on every line. *)
Theorem diffuser_wraps_zero_oracle
    (n_qubits : Z) (t : string) (s s0 : self) :
  __init__ n_qubits t = Ok s ->
  __init__ n_qubits (zeros (Z.to_nat n_qubits)) = Ok s0 ->
  (2 <= n_qubits)%Z ->
  exists body,
    create_oracle s0 = Ok (Instruction "Oracle (Z_f)" (Z.to_nat n_qubits) 0 body)
    /\ create_diffuser s
       = Ok (Instruction "Diffuser (D)" (Z.to_nat n_qubits) 0
               (Spec.on_every_line HGate (Z.to_nat n_qubits) ++ body
                  ++ Spec.on_every_line HGate (Z.to_nat n_qubits))).
Proof.
  intros H1 H2 Hn. apply init_ok in H1, H2.
  destruct H1 as [-> ->], H2 as [-> _].
  rewrite Nat2Z.id in *.
  exists (Spec.oracle_body (String.length t) (zeros (String.length t))).
  split.
  - pose proof (create_oracle_lines (zeros (String.length t))) as Ho.
    rewrite length_zeros in Ho. apply Ho. lia.
  - rewrite create_diffuser_lines by lia.
    unfold Spec.diffuser, Spec.diffuser_body, Spec.oracle_body, Spec.bit_flips.
    rewrite zero_bit_lines_zeros. unfold Spec.on_every_line.
    now rewrite <- !app_assoc.
Qed.

Lemma diffuser_wraps_zero_oracle_witness :
  exists body,
    create_oracle (mkSelf 3 "000") = Ok (Instruction "Oracle (Z_f)" 3 0 body)
    /\ create_diffuser (mkSelf 3 "101")
       = Ok (Instruction "Diffuser (D)" 3 0
               (Spec.on_every_line HGate 3 ++ body
                  ++ Spec.on_every_line HGate 3)).
Proof.
  exact (@diffuser_wraps_zero_oracle 3 "101" (mkSelf 3 "101") (mkSelf 3 "000")
           eq_refl eq_refl ltac:(lia)).
Defined.

(* ------------------------------------------------------------------ *)
(** ** The diffuser inverts about the mean *)

Lemma layer_cons (g : nat -> State -> State) (q : nat) (qs : list nat)
    (psi : State) :
  layer g (q :: qs) psi = layer g qs (g q psi).
Proof. reflexivity. Qed.

Lemma layer_snoc (g : nat -> State -> State) (q : nat) (qs : list nat)
    (psi : State) :
  layer g (qs ++ [q]) psi = g q (layer g qs psi).
Proof. unfold layer. now rewrite fold_left_app. Qed.

Lemma layer_commutes_with (f : State -> State) (g : nat -> State -> State)
    (qs : list nat) :
  (forall q phi, In q qs -> f (g q phi) = g q (f phi)) ->
  forall psi, f (layer g qs psi) = layer g qs (f psi).
Proof.
  induction qs as [|q qs IH]; intros Hc psi; [reflexivity|].
  rewrite !layer_cons, IH by (intros; apply Hc; now right).
  f_equal. apply Hc. now left.
Qed.

Lemma H_zero_H (q : nat) (psi : State) :
  H_on q (zero_on q (H_on q psi)) = avg_on q psi.
Proof.
  apply functional_extensionality. intros b.
  unfold H_on, zero_on, avg_on.
  rewrite !line_setb, Nat.eqb_refl, !setb_setb.
  pose proof half_twice as Hh.
  destruct (psi (setb false q b)) as [x0 y0], (psi (setb true q b)) as [x1 y1].
  destruct (line b q); unfold Cscale, Cplus; cbn [fst snd]; f_equal;
    match goal with
    | |- (?s * (?s * ?a + _ * 0) = _)%R =>
        replace (s * (s * a + _ * 0))%R with ((s * s) * a)%R by ring;
        rewrite Hh; field
    end.
Qed.

Lemma H_zero_comm (q q' : nat) (psi : State) :
  q <> q' -> H_on q (zero_on q' psi) = zero_on q' (H_on q psi).
Proof.
  intros Hne. apply functional_extensionality. intros b.
  unfold H_on, zero_on. rewrite !line_setb.
  replace (q' =? q)%nat with false by (symmetry; apply Nat.eqb_neq; congruence).
  destruct (line b q'); [|reflexivity].
  unfold Cscale, Cplus; cbn [fst snd]. f_equal; ring.
Qed.

Lemma zero_zero_comm (q q' : nat) (psi : State) :
  zero_on q (zero_on q' psi) = zero_on q' (zero_on q psi).
Proof.
  apply functional_extensionality. intros b. unfold zero_on.
  now destruct (line b q), (line b q').
Qed.

(** Hadamard layers turn the projection on all-zero into the mean, one line
    at a time. *)
Lemma hadamard_conjugates_zero (qs : list nat) :
  NoDup qs ->
  forall psi,
    layer H_on qs (layer zero_on qs (layer H_on qs psi)) = layer avg_on qs psi.
Proof.
  induction 1 as [|q qs Hq Hnd IH]; intros psi; [reflexivity|].
  rewrite !layer_cons.
  assert (Hother : forall q', In q' qs -> q <> q')
    by (intros q' Hin ->; contradiction).
  rewrite (@layer_commutes_with (zero_on q) H_on)
    by (intros q' phi Hin; symmetry; apply H_zero_comm;
        apply not_eq_sym; auto).
  rewrite (@layer_commutes_with (H_on q) zero_on)
    by (intros q' phi Hin; apply H_zero_comm; auto).
  rewrite (@layer_commutes_with (H_on q) H_on)
    by (intros q' phi Hin; apply H_on_comm; auto).
  now rewrite H_zero_H, IH.
Qed.

Lemma zero_layer (qs : list nat) (psi : State) (b : N) :
  layer zero_on qs psi b
  = if forallb (fun i => negb (line b i)) qs then psi b else (0%R, 0%R).
Proof.
  revert psi. induction qs as [|q qs IH]; intros psi; [reflexivity|].
  rewrite layer_cons, IH. cbn [forallb]. unfold zero_on.
  destruct (line b q); cbn [negb andb]; [|reflexivity].
  now destruct (forallb _ qs).
Qed.

(** X layer, multi-controlled Z, X layer on all lines: the sign changes at
    the all-zero state, that is, twice the projection is taken away. *)
Lemma zero_reflection (n : nat) (psi : State) :
  (1 <= n)%nat ->
  layer X_on (seq 0 n) (mcz n (layer X_on (seq 0 n) psi))
  = axpy (-2) (layer zero_on (seq 0 n) psi) psi.
Proof.
  intros Hn. apply functional_extensionality. intros b.
  pose proof (@oracle_phase n (zeros n) psi b Hn) as Hp.
  rewrite zero_bit_lines_zeros in Hp. rewrite Hp.
  unfold axpy. rewrite zero_layer.
  replace (encodes (zeros n) n b)
    with (forallb (fun i => negb (line b i)) (seq 0 n)).
  - destruct (forallb _ (seq 0 n)), (psi b) as [x y];
      unfold Copp, Cplus, Cscale; cbn [fst snd]; f_equal; ring.
  - unfold encodes. apply forallb_agree. intros i Hi. apply in_seq in Hi.
    rewrite is_zero_bit_zeros by lia. now destruct (line b i).
Qed.

Lemma H_on_axpy (q : nat) (k : R) (phi psi : State) :
  H_on q (axpy k phi psi) = axpy k (H_on q phi) (H_on q psi).
Proof.
  apply functional_extensionality. intros b. unfold H_on, axpy.
  destruct (psi (setb false q b)) as [x0 y0], (psi (setb true q b)) as [x1 y1],
           (phi (setb false q b)) as [u0 v0], (phi (setb true q b)) as [u1 v1].
  destruct (line b q); unfold Cscale, Cplus; cbn [fst snd]; f_equal; ring.
Qed.

Lemma H_layer_axpy (qs : list nat) (k : R) (phi psi : State) :
  layer H_on qs (axpy k phi psi)
  = axpy k (layer H_on qs phi) (layer H_on qs psi).
Proof.
  revert phi psi. induction qs as [|q qs IH]; intros phi psi; [reflexivity|].
  now rewrite !layer_cons, H_on_axpy, IH.
Qed.

Lemma Csum_app (l1 l2 : list amplitude) :
  Csum (l1 ++ l2) = Cplus (Csum l1) (Csum l2).
Proof.
  induction l1 as [|a l1 IH].
  - change (Csum ([] ++ l2)) with (Csum l2).
    change (Csum []) with (0%R, 0%R).
    destruct (Csum l2) as [x y]. unfold Cplus; cbn [fst snd]. f_equal; ring.
  - change (Csum ((a :: l1) ++ l2)) with (Cplus a (Csum (l1 ++ l2))).
    change (Csum (a :: l1)) with (Cplus a (Csum l1)).
    rewrite IH. destruct a, (Csum l1), (Csum l2).
    unfold Cplus; cbn [fst snd]. f_equal; ring.
Qed.

(** Averaging line by line is the mean over the register's basis states. *)
Lemma avg_layer_mean (n : nat) (psi : State) :
  layer avg_on (seq 0 n) psi = mean n psi.
Proof.
  induction n as [|n IH].
  - apply functional_extensionality. intros b. unfold mean.
    cbn [seq layer fold_left assignments map Csum fold_right pow].
    destruct (psi b) as [x y]. unfold Cscale, Cplus; cbn [fst snd].
    f_equal; field.
  - rewrite seq_S, layer_snoc, IH. cbn [Nat.add].
    apply functional_extensionality. intros b. unfold avg_on, mean.
    cbn [assignments]. rewrite map_app, Csum_app.
    assert (Hp : (2 ^ n <> 0)%R) by (apply pow_nonzero; lra).
    destruct (Csum (map psi (assignments n (setb false n b)))) as [x0 y0],
             (Csum (map psi (assignments n (setb true n b)))) as [x1 y1].
    unfold Cscale, Cplus; cbn [fst snd pow]. f_equal; field; exact Hp.
Qed.

(** The states averaged over: exactly those that agree with [b] outside the
    register, [2^n] of them. *)
Lemma assignments_spec (n : nat) (b c : N) :
  In c (assignments n b) <-> (forall q, (n <= q)%nat -> line c q = line b q).
Proof.
  revert b. induction n as [|n IH]; intros b; cbn [assignments].
  - split.
    + intros [<-|[]] q _. reflexivity.
    + intros H. left. symmetry. apply line_inj. intros p. apply H. lia.
  - rewrite in_app_iff, !IH. split.
    + intros [H|H] q Hq; rewrite H by lia; rewrite line_setb;
        now replace (q =? n)%nat with false
          by (symmetry; apply Nat.eqb_neq; lia).
    + intros H.
      assert (Hc : forall q, (n <= q)%nat ->
                     line c q = line (setb (line c n) n b) q).
      { intros q Hq. rewrite line_setb.
        destruct (Nat.eqb_spec q n) as [->|Hne]; [reflexivity|].
        apply H. lia. }
      destruct (line c n); [right|left]; exact Hc.
Qed.

Lemma length_assignments (n : nat) (b : N) :
  List.length (assignments n b) = (2 ^ n)%nat.
Proof.
  revert b. induction n as [|n IH]; intros b; cbn [assignments]; [reflexivity|].
  rewrite length_app, !IH. cbn [Nat.pow]. lia.
Qed.

Lemma diffuser_action (n : nat) (psi : State) :
  (1 <= n)%nat ->
  layer H_on (seq 0 n)
    (layer X_on (seq 0 n)
       (mcz n (layer X_on (seq 0 n) (layer H_on (seq 0 n) psi))))
  = axpy (-2) (mean n psi) psi.
Proof.
  intros Hn. pose proof (seq_NoDup n 0) as Hnd.
  rewrite zero_reflection, H_layer_axpy by exact Hn.
  rewrite hadamard_conjugates_zero, H_layer_twice by exact Hnd.
  now rewrite avg_layer_mean.
Qed.

(** X10: what the diffuser does.  Every operator [create_diffuser] returns,
    placed across all lines, takes a state [psi] to [psi - 2 * mean psi],
    where the mean is taken over the [2^n] basis states of the register
    (those that agree outside lines [0 .. n-1]).  This is the inversion about
    the mean of the docstring, [2 * mean psi - psi], with the opposite
    overall sign, a global phase. *)
Theorem diffuser_inverts_about_mean (n_qubits : Z) (t : string) (s : self) :
  __init__ n_qubits t = Ok s ->
  forall diffuser, create_diffuser s = Ok diffuser ->
  (forall psi, exists psi',
     apply diffuser (all_lines n_qubits) psi = Some psi'
     /\ forall b, psi' b
                  = Cplus (psi b) (Cscale (-2) (mean (Z.to_nat n_qubits) psi b)))
  /\ (forall b c,
        In c (assignments (Z.to_nat n_qubits) b)
        <-> (forall q, (Z.to_nat n_qubits <= q)%nat -> line c q = line b q))
  /\ (forall b,
        List.length (assignments (Z.to_nat n_qubits) b)
        = (2 ^ Z.to_nat n_qubits)%nat).
Proof.
  intros Hinit diffuser Hd.
  apply init_ok in Hinit. destruct Hinit as [-> ->].
  unfold all_lines. rewrite Nat2Z.id.
  assert (Hn : (1 <= String.length t)%nat)
    by (apply builders_need_a_line; right; left; eauto).
  rewrite create_diffuser_lines in Hd by exact Hn. injection Hd as <-.
  split; [|split].
  - intros psi. eexists. split; [apply apply_diffuser; lia|].
    intros b. rewrite diffuser_action by lia. reflexivity.
  - intros b c. apply assignments_spec.
  - intros b. apply length_assignments.
Qed.

Lemma diffuser_inverts_about_mean_witness :
  exists diffuser, create_diffuser (mkSelf 3 "101") = Ok diffuser
  /\ forall psi, exists psi',
       apply diffuser (all_lines 3) psi = Some psi'
       /\ forall b, psi' b = Cplus (psi b) (Cscale (-2) (mean 3 psi b)).
Proof.
  exists (Spec.diffuser 3). split; [reflexivity|].
  exact (proj1 (@diffuser_inverts_about_mean 3 "101" (mkSelf 3 "101") eq_refl
                  (Spec.diffuser 3) eq_refl)).
Defined.

(* ------------------------------------------------------------------ *)
(** ** Running the assembled circuit: the amplitudes round by round *)

Lemma sum_constant (n : nat) (b : N) (f : State) (y : amplitude) :
  (forall c, In c (assignments n b) -> f c = y) ->
  Csum (map f (assignments n b)) = Cscale (2 ^ n) y.
Proof.
  revert b. induction n as [|n IH]; intros b Hf; cbn [assignments].
  - cbn [map]. change (Csum [f b]) with (Cplus (f b) (0%R, 0%R)).
    rewrite Hf by (now left). destruct y as [u v].
    unfold Cplus, Cscale; cbn [fst snd pow]. f_equal; ring.
  - rewrite map_app, Csum_app.
    rewrite !IH by (intros c Hc; apply Hf; cbn [assignments];
                    apply in_or_app; auto).
    destruct y as [u v]. unfold Cplus, Cscale; cbn [fst snd pow].
    f_equal; ring.
Qed.

Lemma encodes_succ (t : string) (n : nat) (c : N) :
  encodes t (S n) c
  = (encodes t n c && Bool.eqb (line c n) (negb (Spec.is_zero_bit t n)))%bool.
Proof.
  unfold encodes. rewrite seq_S, forallb_app. cbn [forallb Nat.add].
  now rewrite andb_true_r.
Qed.

Lemma assignments_top_line (n : nat) (v : bool) (b c : N) :
  In c (assignments n (setb v n b)) -> line c n = v.
Proof.
  intros Hc. rewrite (proj1 (assignments_spec n (setb v n b) c) Hc) by lia.
  rewrite line_setb. now rewrite Nat.eqb_refl.
Qed.

(** Among the register's basis states exactly one carries the target. *)
Lemma sum_marked (t : string) (n : nat) (b : N) (f : State) (x y : amplitude) :
  (forall c, In c (assignments n b) ->
             f c = if encodes t n c then x else y) ->
  Csum (map f (assignments n b)) = Cplus x (Cscale (2 ^ n - 1) y).
Proof.
  revert b. induction n as [|n IH]; intros b Hf.
  - cbn [assignments map]. change (Csum [f b]) with (Cplus (f b) (0%R, 0%R)).
    rewrite Hf by (now left). cbn [encodes seq forallb].
    destruct x as [u v], y as [u' v'].
    unfold Cplus, Cscale; cbn [fst snd pow]. f_equal; ring.
  - cbn [assignments]. rewrite map_app, Csum_app.
    assert (Hin : forall v c, In c (assignments n (setb v n b)) ->
                    In c (assignments (S n) b)).
    { intros v c Hc. cbn [assignments]. apply in_or_app.
      destruct v; auto. }
    assert (Hmarked : forall v, v = negb (Spec.is_zero_bit t n) ->
              Csum (map f (assignments n (setb v n b)))
              = Cplus x (Cscale (2 ^ n - 1) y)).
    { intros v Hv. apply IH. intros c Hc.
      rewrite (Hf c (Hin v c Hc)), encodes_succ.
      rewrite (assignments_top_line _ _ _ _ Hc), Hv.
      now rewrite eqb_reflx, andb_true_r. }
    assert (Hplain : forall v, v = Spec.is_zero_bit t n ->
              Csum (map f (assignments n (setb v n b))) = Cscale (2 ^ n) y).
    { intros v Hv. apply sum_constant. intros c Hc.
      rewrite (Hf c (Hin v c Hc)), encodes_succ.
      rewrite (assignments_top_line _ _ _ _ Hc), Hv.
      destruct (Spec.is_zero_bit t n); cbn [negb Bool.eqb];
        now rewrite andb_false_r. }
    destruct (Spec.is_zero_bit t n) eqn:Hz.
    + rewrite (Hmarked false), (Hplain true) by reflexivity.
      destruct x as [u v], y as [u' v'].
      unfold Cplus, Cscale; cbn [fst snd pow]. f_equal; ring.
    + rewrite (Hplain false), (Hmarked true) by reflexivity.
      destruct x as [u v], y as [u' v'].
      unfold Cplus, Cscale; cbn [fst snd pow]. f_equal; ring.
Qed.

Lemma in_register_assignments (n : nat) (b c : N) :
  in_register n b -> In c (assignments n b) -> in_register n c.
Proof.
  intros Hb Hc q Hq.
  rewrite (proj1 (assignments_spec n b c) Hc) by exact Hq. now apply Hb.
Qed.

(** One round, oracle then diffuser, on a state with one amplitude at the
    target and another at the other basis states of the register. *)
Lemma round_amplitudes (t : string) (n : nat) (psi : State)
    (ao : amplitude * amplitude) :
  (1 <= n)%nat ->
  (forall b, in_register n b ->
             psi b = if encodes t n b then fst ao else snd ao) ->
  forall b, in_register n b ->
    layer H_on (seq 0 n)
      (layer X_on (seq 0 n)
         (mcz n (layer X_on (seq 0 n) (layer H_on (seq 0 n)
            (layer X_on (filter (Spec.is_zero_bit t) (seq 0 n))
               (mcz n (layer X_on (filter (Spec.is_zero_bit t) (seq 0 n))
                         psi))))))) b
    = if encodes t n b then fst (grover_round n ao)
      else snd (grover_round n ao).
Proof.
  intros Hn Hpsi b Hb. rewrite diffuser_action by exact Hn.
  unfold axpy, mean.
  rewrite (@sum_marked t n b _ (Copp (fst ao)) (snd ao)).
  - rewrite oracle_phase, Hpsi by assumption.
    unfold grover_round. cbv zeta. now destruct (encodes t n b).
  - intros c Hc. rewrite oracle_phase by exact Hn.
    rewrite Hpsi by (eapply in_register_assignments; eauto).
    now destruct (encodes t n c).
Qed.

Lemma line_zero (q : nat) : line 0 q = false.
Proof. unfold line. apply N.bits_0. Qed.

Lemma ket0_origin (b : N) : in_register 0 b -> ket0 b = (1%R, 0%R).
Proof.
  intros Hb. replace b with 0%N; [reflexivity|].
  apply line_inj. intros p. rewrite line_zero. symmetry. apply Hb. lia.
Qed.

Lemma ket0_elsewhere (b : N) (q : nat) : line b q = true -> ket0 b = (0%R, 0%R).
Proof.
  intros Hq. unfold ket0. destruct (N.eqb_spec b 0) as [->|]; [|reflexivity].
  rewrite line_zero in Hq. discriminate.
Qed.

(** The Hadamard layer on the all-zero state: the uniform superposition of
    the register's basis states. *)
Lemma hadamard_start (n : nat) :
  (forall b, in_register n b ->
             layer H_on (seq 0 n) ket0 b = ((/ sqrt 2) ^ n, 0)%R)
  /\ (forall b q, (n <= q)%nat -> line b q = true ->
                  layer H_on (seq 0 n) ket0 b = (0%R, 0%R)).
Proof.
  induction n as [|n [IHin IHout]].
  - split.
    + intros b Hb. cbn [seq layer fold_left pow]. now apply ket0_origin.
    + intros b q _ Hq. cbn [seq layer fold_left]. eapply ket0_elsewhere; eauto.
  - rewrite seq_S, Nat.add_0_l. split.
    + intros b Hb. rewrite layer_snoc. unfold H_on at 1.
      rewrite (IHin (setb false n b)), (IHout (setb true n b) n).
      * unfold Cscale, Cplus; cbn [fst snd pow]. f_equal; ring.
      * lia.
      * rewrite line_setb. now rewrite Nat.eqb_refl.
      * intros q Hq. rewrite line_setb.
        destruct (Nat.eqb_spec q n); [reflexivity|]. apply Hb. lia.
    + intros b q Hq Hset. rewrite layer_snoc. unfold H_on at 1.
      assert (Hv : forall v, line (setb v n b) q = true).
      { intros v. rewrite line_setb.
        now replace (q =? n)%nat with false
          by (symmetry; apply Nat.eqb_neq; lia). }
      rewrite (IHout (setb false n b) q), (IHout (setb true n b) q)
        by (auto; lia).
      unfold Cscale, Cplus; cbn [fst snd]. f_equal; ring.
Qed.

Lemma unitary_prefix_app (l1 l2 : list (CircuitInstruction Operation)) :
  (forall ci, In ci l1 -> operation ci <> Measure) ->
  unitary_prefix (l1 ++ l2) = l1 ++ unitary_prefix l2.
Proof.
  induction l1 as [|ci l1 IH]; intros H; cbn [app unitary_prefix];
    [reflexivity|].
  assert (Hci : operation ci <> Measure) by (apply H; now left).
  rewrite IH by (intros; apply H; now right).
  destruct (operation ci); congruence.
Qed.

Lemma unitary_prefix_measurements (n : nat) :
  unitary_prefix (Spec.measurements n) = [].
Proof. destruct n; reflexivity. Qed.

Lemma unitary_prefix_circuit (n : nat) (t : string) (k : nat) :
  unitary_prefix (data (Spec.circuit n t k))
  = Spec.on_every_line HGate n ++ List.concat (repeat (Spec.round n t) k).
Proof.
  unfold Spec.circuit. cbn [data].
  rewrite app_assoc, unitary_prefix_app, unitary_prefix_measurements.
  - now rewrite app_nil_r.
  - intros ci Hci. apply in_app_or in Hci. destruct Hci as [Hci|Hci].
    + unfold Spec.on_every_line in Hci. apply in_map_iff in Hci.
      destruct Hci as [q [<- _]]. discriminate.
    + apply in_concat in Hci. destruct Hci as [l [Hl Hci]].
      apply repeat_spec in Hl. subst l.
      destruct Hci as [<-|[<-|[]]]; discriminate.
Qed.

(** [k] rounds take amplitudes through [k] steps of [grover_round]. *)
Lemma rounds_amplitudes (t : string) (n k : nat) :
  (1 <= n)%nat ->
  forall (psi : State) (ao : amplitude * amplitude),
    (forall b, in_register n b ->
               psi b = if encodes t n b then fst ao else snd ao) ->
    exists psi',
      apply_body apply (seq 0 n) (List.concat (repeat (Spec.round n t) k)) psi
      = Some psi'
      /\ forall b, in_register n b ->
           psi' b = if encodes t n b
                    then fst (Nat.iter k (grover_round n) ao)
                    else snd (Nat.iter k (grover_round n) ao).
Proof.
  intros Hn. induction k as [|k IH]; intros psi ao Hpsi.
  - exists psi. split; [reflexivity | exact Hpsi].
  - cbn [repeat List.concat]. rewrite apply_body_app.
    unfold Spec.round at 1. cbn [apply_body operation qubits].
    rewrite !lines_in_place by apply all_lines_below.
    rewrite apply_oracle, apply_diffuser by exact Hn.
    rewrite Nat.iter_succ_r.
    apply IH. intros b Hb. now apply round_amplitudes.
Qed.

Lemma circuit_state (t : string) (n k : nat) :
  (1 <= n)%nat ->
  exists psi,
    state_before_measurement (Spec.circuit n t k) ket0 = Some psi
    /\ forall b, in_register n b ->
         psi b = if encodes t n b then fst (amplitudes n k)
                 else snd (amplitudes n k).
Proof.
  intros Hn. unfold state_before_measurement.
  rewrite unitary_prefix_circuit. cbn [num_qubits Spec.circuit].
  rewrite apply_body_app. unfold Spec.on_every_line.
  rewrite (@apply_body_layer HGate H_on) by (auto using all_lines_below).
  apply rounds_amplitudes; [exact Hn|].
  intros b Hb. rewrite (proj1 (hadamard_start n) b Hb). cbn [fst snd].
  now destruct (encodes t n b).
Qed.

Lemma grover_state_core
    (n_qubits : Z) (t : string) (s : self) (iterations : Z)
    (qc : QuantumCircuit) :
  __init__ n_qubits t = Ok s ->
  build_circuit s iterations = Ok qc ->
  exists psi,
    state_before_measurement qc ket0 = Some psi
    /\ forall b, in_register (Z.to_nat n_qubits) b ->
         psi b = if encodes t (Z.to_nat n_qubits) b
                 then fst (amplitudes (Z.to_nat n_qubits) (Z.to_nat iterations))
                 else snd (amplitudes (Z.to_nat n_qubits) (Z.to_nat iterations)).
Proof.
  intros Hinit Hqc. apply init_ok in Hinit. destruct Hinit as [-> ->].
  rewrite Nat2Z.id.
  assert (Hn : (1 <= String.length t)%nat)
    by (apply builders_need_a_line; right; right; eauto).
  rewrite build_circuit_lines in Hqc by exact Hn. injection Hqc as <-.
  apply circuit_state. lia.
Qed.

(** X11: the state the assembled circuit is measured in.  For every circuit
    [build_circuit] returns, started with all lines 0, the state before the
    measurements has the amplitude [fst (amplitudes n k)] at the basis state
    that carries the target and [snd (amplitudes n k)] at every other basis
    state of the register, where [k = max iterations 0] and [amplitudes]
    follows the Grover recurrence from the uniform superposition: each round
    changes the sign of the target amplitude and then takes twice the mean
    away from both. *)
Theorem grover_state
    (n_qubits : Z) (t : string) (s : self) (iterations : Z)
    (qc : QuantumCircuit) :
  __init__ n_qubits t = Ok s ->
  build_circuit s iterations = Ok qc ->
  exists psi,
    state_before_measurement qc ket0 = Some psi
    /\ forall b, in_register (Z.to_nat n_qubits) b ->
         psi b = if encodes t (Z.to_nat n_qubits) b
                 then fst (amplitudes (Z.to_nat n_qubits) (Z.to_nat iterations))
                 else snd (amplitudes (Z.to_nat n_qubits) (Z.to_nat iterations)).
Proof. apply grover_state_core. Qed.

Lemma grover_state_witness :
  exists psi,
    state_before_measurement (Spec.circuit 3 "101" 2) ket0 = Some psi
    /\ forall b, in_register 3 b ->
         psi b = if encodes "101" 3 b then fst (amplitudes 3 2)
                 else snd (amplitudes 3 2).
Proof.
  exact (@grover_state 3 "101" (mkSelf 3 "101") 2 (Spec.circuit 3 "101" 2)
           eq_refl (build_circuit_lines "101" 2 ltac:(simpl; lia))).
Defined.

Lemma amplitudes_two_lines_one_round :
  amplitudes 2 1 = ((-1, 0), (0, 0))%R.
Proof.
  unfold amplitudes, Nat.iter. cbn [nat_rect].
  unfold grover_round. cbn [fst snd].
  pose proof half_twice as Hh. set (h := (/ sqrt 2)%R) in *.
  unfold Copp, Cplus, Cscale; cbn [fst snd pow].
  replace (h * (h * 1))%R with (/ 2)%R by (rewrite <- Hh; ring).
  f_equal; f_equal; field.
Qed.

Lemma amplitudes_three_lines_two_rounds :
  amplitudes 3 2
  = ((11 / 4 * (/ sqrt 2 * / 2), 0), (- (1 / 4) * (/ sqrt 2 * / 2), 0))%R.
Proof.
  unfold amplitudes, Nat.iter. cbn [nat_rect].
  unfold grover_round. cbn [fst snd].
  pose proof half_twice as Hh. set (h := (/ sqrt 2)%R) in *.
  unfold Copp, Cplus, Cscale; cbn [fst snd pow].
  replace (h * (h * (h * 1)))%R with (h * / 2)%R by (rewrite <- Hh; ring).
  f_equal; f_equal; field.
Qed.

(** X12: how sure the search is.  With two lines and one round (the
    planner's count for two qubits) the circuit [build_circuit] returns is
    measured in the target state with probability 1 and in any other state
    of the register with probability 0.  With three lines and two rounds the
    target is read with probability 121/128 and each other state with
    probability 1/128. *)
Theorem grover_success_probability (t : string) (s : self) (qc : QuantumCircuit) :
  (__init__ 2 t = Ok s ->
   build_circuit s 1 = Ok qc ->
   exists psi,
     state_before_measurement qc ket0 = Some psi
     /\ forall b, in_register 2 b ->
          probability psi b = if encodes t 2 b then 1%R else 0%R)
  /\ (__init__ 3 t = Ok s ->
      build_circuit s 2 = Ok qc ->
      exists psi,
        state_before_measurement qc ket0 = Some psi
        /\ forall b, in_register 3 b ->
             probability psi b
             = if encodes t 3 b then (121 / 128)%R else (1 / 128)%R).
Proof.
  split; intros Hinit Hqc.
  - destruct (@grover_state_core _ _ _ _ _ Hinit Hqc) as [psi [Hrun Hpsi]].
    exists psi. split; [exact Hrun|]. intros b Hb.
    unfold probability. rewrite (Hpsi b Hb).
    change (Z.to_nat 2) with 2%nat. change (Z.to_nat 1) with 1%nat.
    rewrite amplitudes_two_lines_one_round.
    destruct (encodes t 2 b); cbn [fst snd]; ring.
  - destruct (@grover_state_core _ _ _ _ _ Hinit Hqc) as [psi [Hrun Hpsi]].
    exists psi. split; [exact Hrun|]. intros b Hb.
    unfold probability. rewrite (Hpsi b Hb).
    change (Z.to_nat 3) with 3%nat. change (Z.to_nat 2) with 2%nat.
    rewrite amplitudes_three_lines_two_rounds.
    pose proof half_twice as Hh. set (h := (/ sqrt 2)%R) in *.
    destruct (encodes t 3 b); cbn [fst snd].
    + replace (11 / 4 * (h * / 2) * (11 / 4 * (h * / 2)) + 0 * 0)%R
        with (121 / 64 * (h * h))%R by field.
      rewrite Hh. field.
    + replace (- (1 / 4) * (h * / 2) * (- (1 / 4) * (h * / 2)) + 0 * 0)%R
        with (1 / 64 * (h * h))%R by field.
      rewrite Hh. field.
Qed.

Lemma grover_success_probability_witness :
  (exists psi,
     state_before_measurement (Spec.circuit 2 "10" 1) ket0 = Some psi
     /\ forall b, in_register 2 b ->
          probability psi b = if encodes "10" 2 b then 1%R else 0%R)
  /\ (exists psi,
        state_before_measurement (Spec.circuit 3 "101" 2) ket0 = Some psi
        /\ forall b, in_register 3 b ->
             probability psi b
             = if encodes "101" 3 b then (121 / 128)%R else (1 / 128)%R).
Proof.
  split.
  - exact (proj1 (@grover_success_probability "10" (mkSelf 2 "10")
                    (Spec.circuit 2 "10" 1))
             eq_refl (build_circuit_lines "10" 1 ltac:(simpl; lia))).
  - exact (proj2 (@grover_success_probability "101" (mkSelf 3 "101")
                    (Spec.circuit 3 "101" 2))
             eq_refl (build_circuit_lines "101" 2 ltac:(simpl; lia))).
Defined.

(* ================================================================== *)
(** * Further properties of [main.py] *)

(* ------------------------------------------------------------------ *)
(** ** Reading the counts out of a job result *)

Lemma getattr_field (name : string) (data : MainIO.DataBin) (f : MainIO.Field) :
  MainIO.getattr name data = Some f -> In (name, f) data.
Proof.
  induction data as [|[name' f'] data IH]; cbn [MainIO.getattr]; [discriminate|].
  destruct (String.eqb_spec name name') as [->|Hne].
  - intros [= ->]. now left.
  - intros H. right. auto.
Qed.

Lemma get_counts_field (name : string) (data : MainIO.DataBin) (c : MainIO.Counts) :
  MainIO.get_counts (MainIO.getattr name data) = MainIO.Return c ->
  In (name, MainIO.BitArray c) data.
Proof.
  destruct (MainIO.getattr name data) as [[c'|]|] eqn:Hg;
    cbn [MainIO.get_counts]; try discriminate.
  intros [= ->]. now apply getattr_field.
Qed.

Lemma extract_v2_field (job : MainIO.JobResult) (c : MainIO.Counts) :
  MainIO.extract_v2 job = MainIO.Return c ->
  exists data rest name,
    job = MainIO.PrimitiveResult (data :: rest)
    /\ In (name, MainIO.BitArray c) data.
Proof.
  destruct job as [c'|[|data rest]]; cbn [MainIO.extract_v2]; try discriminate.
  intros H. exists data, rest.
  destruct (MainIO.hasattr data "c").
  { exists "c"%string. split; [reflexivity|]. now apply get_counts_field. }
  destruct (MainIO.hasattr data "meas").
  { exists "meas"%string. split; [reflexivity|]. now apply get_counts_field. }
  destruct (map fst data) as [|first_field others]; [discriminate|].
  exists first_field. split; [reflexivity|]. now apply get_counts_field.
Qed.

(** X13: [extract_counts_from_result] in hardware mode never lets an
    exception out: it returns counts or ends the program with status 1.
    Counts it returns are those of a bit-array field of the first pub
    result; a bit array named "c" is taken whatever else there is, and one
    named "meas" when there is no field "c".  A result without pub results,
    or whose first data bin has no field, ends the program.  In simulator
    mode a sampler result is not read: [AttributeError] propagates. *)
Theorem extract_counts_hardware_mode (job : MainIO.JobResult) :
  (forall e, MainIO.extract_counts_from_result job true <> MainIO.Propagate e)
  /\ (forall c, MainIO.extract_counts_from_result job true = MainIO.Return c ->
        exists data rest name,
          job = MainIO.PrimitiveResult (data :: rest)
          /\ In (name, MainIO.BitArray c) data)
  /\ (forall data rest c,
        job = MainIO.PrimitiveResult (data :: rest) ->
        MainIO.getattr "c" data = Some (MainIO.BitArray c) ->
        MainIO.extract_counts_from_result job true = MainIO.Return c)
  /\ (forall data rest c,
        job = MainIO.PrimitiveResult (data :: rest) ->
        MainIO.getattr "c" data = None ->
        MainIO.getattr "meas" data = Some (MainIO.BitArray c) ->
        MainIO.extract_counts_from_result job true = MainIO.Return c)
  /\ (forall rest,
        job = MainIO.PrimitiveResult [] \/ job = MainIO.PrimitiveResult ([] :: rest) ->
        MainIO.extract_counts_from_result job true = MainIO.SysExit 1)
  /\ (forall pubs,
        job = MainIO.PrimitiveResult pubs ->
        MainIO.extract_counts_from_result job false
        = MainIO.Propagate MainIO.AttributeError).
Proof.
  unfold MainIO.extract_counts_from_result. cbn [negb].
  repeat split.
  - intros e. destruct (MainIO.extract_v2 job); discriminate.
  - intros c H. apply extract_v2_field.
    destruct (MainIO.extract_v2 job); congruence.
  - intros data rest c -> Hc. cbn [MainIO.extract_v2].
    unfold MainIO.hasattr. now rewrite Hc.
  - intros data rest c -> Hc Hm. cbn [MainIO.extract_v2].
    unfold MainIO.hasattr. now rewrite Hc, Hm.
  - intros rest [->| ->]; reflexivity.
  - intros pubs ->. reflexivity.
Qed.

Lemma extract_counts_hardware_mode_witness :
  MainIO.extract_counts_from_result
    (MainIO.PrimitiveResult
       [[("meas"%string, MainIO.BitArray [("11"%string, 3%Z)]);
         ("c"%string, MainIO.BitArray [("10"%string, 7%Z)])]]) true
  = MainIO.Return [("10"%string, 7%Z)]
  /\ MainIO.extract_counts_from_result
       (MainIO.PrimitiveResult
          [[("x"%string, MainIO.OtherData);
            ("meas"%string, MainIO.BitArray [("11"%string, 3%Z)])]]) true
     = MainIO.Return [("11"%string, 3%Z)].
Proof.
  split.
  - eapply (proj1 (proj2 (proj2 (extract_counts_hardware_mode _))));
      reflexivity.
  - eapply (proj1 (proj2 (proj2 (proj2 (extract_counts_hardware_mode _)))));
      reflexivity.
Defined.

(* ------------------------------------------------------------------ *)
(** ** Sorting, as [sorted] does it *)

Lemma insert_sorted_perm (A : Type) (before : A -> A -> bool) (x : A) (l : list A) :
  Permutation (x :: l) (MainIO.insert_sorted before x l).
Proof.
  induction l as [|y l IH]; cbn [MainIO.insert_sorted]; [reflexivity|].
  destruct (before y x); [|reflexivity].
  rewrite perm_swap. now constructor.
Qed.

Lemma sorted_perm (A : Type) (before : A -> A -> bool) (l : list A) :
  Permutation l (MainIO.sorted before l).
Proof.
  induction l as [|x l IH]; cbn [MainIO.sorted fold_right]; [constructor|].
  fold (MainIO.sorted before l).
  rewrite <- insert_sorted_perm. now constructor.
Qed.

(** Inserting keeps a list in order, for an order in which [x] not strictly
    after [y] means [x] at most [y]. *)
Lemma insert_sorted_ordered (A : Type) (before : A -> A -> bool)
    (le : A -> A -> Prop) (x : A) (l : list A) :
  (forall a b, before a b = true -> le a b) ->
  (forall a b, before a b = false -> le b a) ->
  Sorted le l -> Sorted le (MainIO.insert_sorted before x l).
Proof.
  intros Hlt Hge. induction 1 as [|y l Hs IH Hhd]; cbn [MainIO.insert_sorted].
  - repeat constructor.
  - destruct (before y x) eqn:Hyx.
    + constructor; [exact IH|].
      destruct Hhd as [|z l Hyz]; cbn [MainIO.insert_sorted].
      * constructor. auto.
      * destruct (before z x); constructor; auto.
    + constructor; [now constructor|]. constructor. auto.
Qed.

Lemma sorted_ordered (A : Type) (before : A -> A -> bool)
    (le : A -> A -> Prop) (l : list A) :
  (forall a b, before a b = true -> le a b) ->
  (forall a b, before a b = false -> le b a) ->
  Sorted le (MainIO.sorted before l).
Proof.
  intros Hlt Hge. induction l as [|x l IH]; cbn [MainIO.sorted fold_right].
  - constructor.
  - now apply insert_sorted_ordered.
Qed.

Lemma string_ltb_leb (a b : string) : String.ltb a b = true -> String.leb a b = true.
Proof.
  unfold String.ltb, String.leb. now destruct (String.compare a b).
Qed.

Lemma string_not_ltb_leb (a b : string) :
  String.ltb a b = false -> String.leb b a = true.
Proof.
  unfold String.ltb, String.leb. rewrite (String.compare_antisym a b).
  now destruct (String.compare b a).
Qed.

(* ------------------------------------------------------------------ *)
(** ** The bars of the histogram *)

Lemma get_of_key (k : string) (counts : MainIO.Counts) :
  In k (MainIO.keys counts) -> exists v, MainIO.get k counts = Some v.
Proof.
  induction counts as [|[k' v'] counts IH]; cbn [MainIO.keys map MainIO.get];
    [intros []|].
  destruct (String.eqb_spec k k') as [->|Hne]; [eauto|].
  intros [Heq|Hin]; [cbn in Heq; congruence|]. now apply IH.
Qed.

Lemma combine_with_map (A B : Type) (f : A -> B) (l : list A) :
  combine l (map f l) = map (fun a => (a, f a)) l.
Proof. induction l as [|a l IH]; cbn [combine map]; congruence. Qed.

Lemma index_of_absent (t : string) (ks : list string) :
  MainIO.index_of t ks = None -> ~ In t ks.
Proof.
  induction ks as [|k ks IH]; cbn [MainIO.index_of]; [auto|].
  destruct (String.eqb_spec k t) as [->|Hne]; [discriminate|].
  destruct (MainIO.index_of t ks); [discriminate|].
  intros _ [Heq|Hin]; [congruence | now apply IH].
Qed.

(** Colouring the bar at the target's index colours the target's bar. *)
Lemma paint_target (t : string) (h : string -> Z) (ks : list string) :
  NoDup ks ->
  match MainIO.index_of t ks with
  | Some index =>
      MainIO.set_color index MainIO.Magenta
        (map (fun k => MainIO.mkBar k (h k) MainIO.Blue) ks)
  | None => map (fun k => MainIO.mkBar k (h k) MainIO.Blue) ks
  end
  = map (fun k => MainIO.mkBar k (h k)
                    (if String.eqb k t then MainIO.Magenta else MainIO.Blue)) ks.
Proof.
  induction 1 as [|k ks Hk Hnd IH]; [reflexivity|].
  cbn [MainIO.index_of map].
  destruct (String.eqb_spec k t) as [->|Hne].
  - cbn [MainIO.set_color MainIO.label MainIO.height]. f_equal.
    apply map_ext_in. intros k' Hin.
    destruct (String.eqb_spec k' t) as [->|]; [contradiction | reflexivity].
  - destruct (MainIO.index_of t ks) as [i|]; cbn [option_map MainIO.set_color];
      now rewrite <- IH.
Qed.

Lemma save_histogram_bars (counts : MainIO.Counts) (t : string) :
  NoDup (MainIO.keys counts) ->
  MainIO.save_histogram counts t
  = map (fun k => MainIO.mkBar k
                    (match MainIO.get k counts with Some v => v | None => 0%Z end)
                    (if String.eqb k t then MainIO.Magenta else MainIO.Blue))
        (MainIO.sorted String.ltb (MainIO.keys counts)).
Proof.
  intros Hnd. unfold MainIO.save_histogram. cbv zeta.
  rewrite combine_with_map, map_map. cbn [fst snd].
  apply paint_target.
  eapply Permutation_NoDup; [apply sorted_perm | exact Hnd].
Qed.

(** X14: the bars of [save_histogram].  For a counts dictionary (its keys
    are distinct) the histogram has one bar per key; the bars stand in
    ascending order of their labels; each bar is as tall as the count of its
    label; and a bar has the highlight colour exactly when its label is the
    target, so no bar is highlighted when the target was never measured. *)
Theorem save_histogram_spec (counts : MainIO.Counts) (t : string) :
  NoDup (MainIO.keys counts) ->
  Sorted (fun a b => String.leb a b = true)
         (map MainIO.label (MainIO.save_histogram counts t))
  /\ Permutation (MainIO.keys counts)
                 (map MainIO.label (MainIO.save_histogram counts t))
  /\ (forall bar, In bar (MainIO.save_histogram counts t) ->
        MainIO.get (MainIO.label bar) counts = Some (MainIO.height bar))
  /\ (forall bar, In bar (MainIO.save_histogram counts t) ->
        (MainIO.color bar = MainIO.Magenta <-> MainIO.label bar = t)).
Proof.
  intros Hnd. rewrite save_histogram_bars by exact Hnd.
  rewrite map_map. cbn [MainIO.label]. rewrite map_id.
  split; [|split; [|split]].
  - apply sorted_ordered; auto using string_ltb_leb, string_not_ltb_leb.
  - apply sorted_perm.
  - intros bar Hbar. apply in_map_iff in Hbar. destruct Hbar as [k [<- Hk]].
    cbn [MainIO.label MainIO.height].
    assert (Hin : In k (MainIO.keys counts))
      by (eapply Permutation_in; [symmetry; apply sorted_perm | exact Hk]).
    destruct (get_of_key _ _ Hin) as [v Hv]. now rewrite Hv.
  - intros bar Hbar. apply in_map_iff in Hbar. destruct Hbar as [k [<- _]].
    cbn [MainIO.label MainIO.color].
    destruct (String.eqb_spec k t); split; congruence.
Qed.

Lemma save_histogram_spec_witness :
  Sorted (fun a b => String.leb a b = true)
         (map MainIO.label
            (MainIO.save_histogram [("11"%string, 900%Z); ("00"%string, 50%Z);
                                    ("10"%string, 74%Z)] "11"))
  /\ MainIO.save_histogram [("11"%string, 900%Z); ("00"%string, 50%Z);
                            ("10"%string, 74%Z)] "11"
     = [MainIO.mkBar "00" 50 MainIO.Blue; MainIO.mkBar "10" 74 MainIO.Blue;
        MainIO.mkBar "11" 900 MainIO.Magenta].
Proof.
  split; [|reflexivity].
  refine (proj1 (@save_histogram_spec
                   [("11"%string, 900%Z); ("00"%string, 50%Z);
                    ("10"%string, 74%Z)] "11" _)).
  repeat constructor; cbn; intuition discriminate.
Defined.

(* ------------------------------------------------------------------ *)
(** ** The verdict of [main] *)

Lemma sorted_counts_descending (counts : MainIO.Counts) :
  StronglySorted (fun a b : string * Z => (snd b <= snd a)%Z)
                 (MainIO.sorted_counts counts).
Proof.
  apply Sorted_StronglySorted.
  - intros a b c Hab Hbc. lia.
  - apply sorted_ordered.
    + intros a b H. apply Z.ltb_lt in H. lia.
    + intros a b H. apply Z.ltb_ge in H. lia.
Qed.

(** The first entry after sorting has the greatest count. *)
Lemma top_is_maximal (counts : MainIO.Counts) (k : string) (v : Z)
    (rest : MainIO.Counts) :
  MainIO.sorted_counts counts = (k, v) :: rest ->
  In (k, v) counts /\ forall e, In e counts -> (snd e <= v)%Z.
Proof.
  intros Hs. pose proof (sorted_counts_descending counts) as Hd.
  pose proof (sorted_perm (fun y x : string * Z => (snd x <? snd y)%Z) counts)
    as Hp.
  fold (MainIO.sorted_counts counts) in Hp. rewrite Hs in Hd, Hp.
  split.
  - eapply Permutation_in; [symmetry; exact Hp | now left].
  - intros e He. apply (Permutation_in _ Hp) in He.
    inversion Hd as [|a l Hl Hall]; subst.
    destruct He as [<-|He]; [cbn; lia|].
    rewrite Forall_forall in Hall. now apply (Hall e He).
Qed.

(** Among the entries with the greatest count the first one comes out on
    top. *)
Lemma first_maximum_on_top (l1 l2 : MainIO.Counts) (k : string) (v : Z) :
  (forall e, In e l1 -> (snd e < v)%Z) ->
  (forall e, In e l2 -> (snd e <= v)%Z) ->
  exists rest, MainIO.sorted_counts (l1 ++ (k, v) :: l2) = (k, v) :: rest.
Proof.
  intros H1 H2. induction l1 as [|e l1 IH]; cbn [app].
  - unfold MainIO.sorted_counts, MainIO.sorted. cbn [fold_right].
    fold (MainIO.sorted (fun y x : string * Z => (snd x <? snd y)%Z) l2).
    destruct (MainIO.sorted _ l2) as [|y r] eqn:Hs;
      cbn [MainIO.insert_sorted]; [eauto|].
    assert (Hy : In y l2).
    { eapply Permutation_in; [symmetry; apply sorted_perm|].
      rewrite Hs. now left. }
    cbn [snd]. replace (v <? snd y)%Z with false; [eauto|].
    symmetry. apply Z.ltb_ge. now apply H2.
  - destruct IH as [rest Hrest]; [intros; apply H1; now right|].
    unfold MainIO.sorted_counts, MainIO.sorted in *. cbn [fold_right].
    rewrite Hrest. cbn [MainIO.insert_sorted snd].
    replace (snd e <? v)%Z with true; [eauto|].
    symmetry. apply Z.ltb_lt. apply H1. now left.
Qed.

(** X15: the verdict.  [main] reports SUCCESS only if the target was
    measured and no outcome has a greater count.  The verdict is decided by
    the first key, in the order of the counts, among those with the greatest
    count: SUCCESS if that key is the target, FAILURE otherwise, so a target
    that only ties with an earlier key gets FAILURE.  With [shots = 0] the
    success rate raises [ZeroDivisionError] before any verdict, and empty
    counts end in [IndexError]. *)
Theorem report_verdict (counts : MainIO.Counts) (target : string) (shots : Z) :
  (MainIO.report counts target shots = MainIO.Return MainIO.SUCCESS ->
     exists v, In (target, v) counts
               /\ forall e, In e counts -> (snd e <= v)%Z)
  /\ (forall l1 k v l2 ratio,
        counts = l1 ++ (k, v) :: l2 ->
        (forall e, In e l1 -> (snd e < v)%Z) ->
        (forall e, In e l2 -> (snd e <= v)%Z) ->
        Main.int_true_divide
          (match MainIO.get target counts with Some c => c | None => 0%Z end)
          shots = Ok ratio ->
        MainIO.report counts target shots
        = MainIO.Return (if String.eqb k target
                         then MainIO.SUCCESS else MainIO.FAILURE))
  /\ (shots = 0%Z ->
      MainIO.report counts target shots
      = MainIO.Propagate (MainIO.Builtin ZeroDivisionError))
  /\ (counts = [] -> shots <> 0%Z ->
      MainIO.report counts target shots = MainIO.Propagate MainIO.IndexError).
Proof.
  unfold MainIO.report. cbv zeta. split; [|split; [|split]].
  - destruct (Main.int_true_divide _ shots); cbn [MainIO.lift MainIO.and_then];
      [|discriminate].
    destruct (MainIO.sorted_counts counts) as [|[k v] rest] eqn:Hs;
      cbn [MainIO.keys map fst]; [discriminate|].
    destruct (String.eqb_spec k target) as [->|]; [|discriminate].
    intros _. exists v. eapply top_is_maximal; eauto.
  - intros l1 k v l2 ratio -> H1 H2 Hdiv. rewrite Hdiv.
    cbn [MainIO.lift MainIO.and_then].
    destruct (first_maximum_on_top l1 l2 k H1 H2) as [rest ->].
    reflexivity.
  - intros ->. unfold Main.int_true_divide. reflexivity.
  - intros -> Hs. cbn [MainIO.get]. unfold Main.int_true_divide.
    replace (shots =? 0)%Z with false by (symmetry; now apply Z.eqb_neq).
    reflexivity.
Qed.

Lemma report_verdict_witness :
  MainIO.report [("01"%string, 20%Z); ("11"%string, 940%Z); ("00"%string, 40%Z)]
                "11" 1000
  = MainIO.Return MainIO.SUCCESS
  /\ MainIO.report [("00"%string, 500%Z); ("11"%string, 500%Z)] "11" 1000
     = MainIO.Return MainIO.FAILURE.
Proof.
  split.
  - refine (proj1 (proj2 (@report_verdict _ "11" 1000))
              [("01"%string, 20%Z)] "11"%string 940%Z [("00"%string, 40%Z)]
              _ eq_refl _ _ _).
    + intros e [<-|[]]. cbn. lia.
    + intros e [<-|[]]. cbn. lia.
    + vm_compute. reflexivity.
  - refine (proj1 (proj2 (@report_verdict _ "11" 1000))
              [] "00"%string 500%Z [("11"%string, 500%Z)]
              _ eq_refl _ _ _).
    + intros e [].
    + intros e [<-|[]]. cbn. lia.
    + vm_compute. reflexivity.
Defined.

(* ------------------------------------------------------------------ *)
(** ** [main]: from the configuration to the verdict *)

Lemma init_matching_length (t : string) :
  __init__ (Z.of_nat (String.length t)) t
  = Ok (mkSelf (Z.of_nat (String.length t)) t).
Proof. unfold __init__. now rewrite Z.eqb_refl. Qed.

(** [main] up to the backend, for a configuration that passes the length
    test with at least one qubit. *)
Lemma main_until_backend (w : MainIO.World) (config : MainIO.Config)
    (t : string) (shots t_opt : Z) :
  MainIO.load_configuration w = Some config ->
  MainIO.cfg_n_qubits config = Some (Z.of_nat (String.length t)) ->
  MainIO.cfg_target_state config = Some t ->
  MainIO.cfg_shots config = Some shots ->
  (1 <= String.length t)%nat ->
  run (MainIO.libm_asin w)
      (calculate_optimal_iterations (Z.of_nat (String.length t)) 1)
  = Ok t_opt ->
  MainIO.main w
  = MainIO.and_then
      (MainIO.execute w (hardware_mode config)
         (Spec.circuit (String.length t) t (Z.to_nat t_opt)) shots)
      (after_backend config t shots).
Proof.
  intros Hload Hn Ht Hs Hlen Hopt. unfold MainIO.main.
  rewrite Hload, Hn, Ht, Hs. cbn [MainIO.getitem MainIO.and_then].
  rewrite Z.eqb_refl. cbn [negb]. rewrite Hopt.
  cbn [MainIO.lift MainIO.and_then].
  rewrite init_matching_length. cbn [MainIO.lift MainIO.and_then].
  rewrite build_circuit_lines by exact Hlen.
  cbn [MainIO.lift MainIO.and_then]. reflexivity.
Qed.

Lemma report_without_shots (counts : MainIO.Counts) (t : string) :
  MainIO.report counts t 0
  = MainIO.Propagate (MainIO.Builtin ZeroDivisionError).
Proof. reflexivity. Qed.

(** X16: what [main] submits.  For a configuration whose target has the
    configured length, at least 2, and a planner that returns [t_opt], [main]
    hands the backend the circuit of the specification with
    [max(t_opt, 0)] Grover rounds, together with the configured shots and
    mode, and its outcome is whatever follows from the backend's result.
    Started with all lines 0 the submitted circuit is measured in the state
    with the amplitudes of [t_opt] Grover rounds. *)
Theorem main_submits_grover_circuit (w : MainIO.World) (config : MainIO.Config)
    (t : string) (shots t_opt : Z) :
  MainIO.load_configuration w = Some config ->
  MainIO.cfg_n_qubits config = Some (Z.of_nat (String.length t)) ->
  MainIO.cfg_target_state config = Some t ->
  MainIO.cfg_shots config = Some shots ->
  (2 <= String.length t)%nat ->
  run (MainIO.libm_asin w)
      (calculate_optimal_iterations (Z.of_nat (String.length t)) 1)
  = Ok t_opt ->
  exists qc,
    MainIO.main w
    = MainIO.and_then (MainIO.execute w (hardware_mode config) qc shots)
                      (after_backend config t shots)
    /\ qc = Spec.circuit (String.length t) t (Z.to_nat t_opt)
    /\ exists psi,
         state_before_measurement qc ket0 = Some psi
         /\ forall b, in_register (String.length t) b ->
              psi b = if encodes t (String.length t) b
                      then fst (amplitudes (String.length t) (Z.to_nat t_opt))
                      else snd (amplitudes (String.length t) (Z.to_nat t_opt)).
Proof.
  intros Hload Hn Ht Hs Hlen Hopt.
  exists (Spec.circuit (String.length t) t (Z.to_nat t_opt)).
  split; [apply main_until_backend; auto; lia|]. split; [reflexivity|].
  apply circuit_state. lia.
Qed.

Lemma main_submits_grover_circuit_witness :
  exists qc,
    MainIO.main (example_world (Some (example_config 2 "10" 1024))
                   (MainIO.Return (MainIO.AerResult [("10"%string, 1024%Z)])))
    = MainIO.Return MainIO.SUCCESS
    /\ qc = Spec.circuit 2 "10" 1.
Proof.
  destruct (@main_submits_grover_circuit
              (example_world (Some (example_config 2 "10" 1024))
                 (MainIO.Return (MainIO.AerResult [("10"%string, 1024%Z)])))
              (example_config 2 "10" 1024) "10" 1024 1
              eq_refl eq_refl eq_refl eq_refl
              (le_n 2) ltac:(vm_compute; reflexivity))
    as [qc [Hmain [Hqc _]]].
  exists qc. split; [|exact Hqc].
  rewrite Hmain. vm_compute. reflexivity.
Defined.

(** X17: what a verdict presupposes.  If [main] returns a verdict, then the
    configuration was loaded with its three keys, the target has the
    configured length and at least one character, the planner returned, the
    backend was run on the circuit of the specification and returned a
    result from which the counts were extracted, [shots] is not 0, and the
    verdict is the one of these counts. *)
Theorem main_verdict_presupposes (w : MainIO.World) (v : MainIO.Verdict) :
  MainIO.main w = MainIO.Return v ->
  exists config t shots t_opt result counts,
    MainIO.load_configuration w = Some config
    /\ MainIO.cfg_n_qubits config = Some (Z.of_nat (String.length t))
    /\ MainIO.cfg_target_state config = Some t
    /\ MainIO.cfg_shots config = Some shots
    /\ (1 <= String.length t)%nat
    /\ shots <> 0%Z
    /\ run (MainIO.libm_asin w)
           (calculate_optimal_iterations (Z.of_nat (String.length t)) 1)
       = Ok t_opt
    /\ MainIO.execute w (hardware_mode config)
         (Spec.circuit (String.length t) t (Z.to_nat t_opt)) shots
       = MainIO.Return result
    /\ MainIO.extract_counts_from_result result (hardware_mode config)
       = MainIO.Return counts
    /\ MainIO.report counts t shots = MainIO.Return v.
Proof.
  intros Hmain. unfold MainIO.main in Hmain.
  destruct (MainIO.load_configuration w) as [config|] eqn:Hload;
    [|discriminate].
  destruct (MainIO.cfg_n_qubits config) as [n_qubits|] eqn:Hn;
    [|discriminate].
  destruct (MainIO.cfg_target_state config) as [t|] eqn:Ht; [|discriminate].
  destruct (MainIO.cfg_shots config) as [shots|] eqn:Hs; [|discriminate].
  cbn [MainIO.getitem MainIO.and_then] in Hmain.
  destruct (Z.eqb_spec (Z.of_nat (String.length t)) n_qubits) as [<-|];
    [|discriminate].
  cbn [negb] in Hmain.
  destruct (run (MainIO.libm_asin w) _) as [t_opt|] eqn:Hopt; [|discriminate].
  cbn [MainIO.lift MainIO.and_then] in Hmain.
  rewrite init_matching_length in Hmain.
  cbn [MainIO.lift MainIO.and_then] in Hmain.
  destruct (build_circuit _ t_opt) as [qc|] eqn:Hqc; [|discriminate].
  assert (Hlen : (1 <= String.length t)%nat)
    by (apply builders_need_a_line; right; right; eauto).
  rewrite build_circuit_lines in Hqc by exact Hlen. injection Hqc as <-.
  cbn [MainIO.lift MainIO.and_then] in Hmain.
  fold (hardware_mode config) in Hmain.
  destruct (MainIO.execute w _ _ shots) as [result| |] eqn:Hrun;
    [|discriminate|discriminate].
  cbn [MainIO.and_then] in Hmain.
  destruct (MainIO.extract_counts_from_result result _) as [counts| |]
    eqn:Hcounts; [|discriminate|discriminate].
  cbn [MainIO.and_then] in Hmain.
  exists config, t, shots, t_opt, result, counts.
  repeat (split; [first [assumption | reflexivity]|]).
  split; [|auto].
  intros ->. rewrite report_without_shots in Hmain. discriminate.
Qed.

Lemma main_verdict_presupposes_witness :
  MainIO.main (example_world (Some (example_config 2 "10" 1024))
                 (MainIO.Return (MainIO.AerResult [("10"%string, 1024%Z)])))
  = MainIO.Return MainIO.SUCCESS
  /\ exists config t shots t_opt result counts,
       Some (example_config 2 "10" 1024) = Some config
       /\ MainIO.cfg_n_qubits config = Some (Z.of_nat (String.length t))
       /\ MainIO.cfg_target_state config = Some t
       /\ MainIO.cfg_shots config = Some shots
       /\ (1 <= String.length t)%nat
       /\ shots <> 0%Z
       /\ run table_asin
              (calculate_optimal_iterations (Z.of_nat (String.length t)) 1)
          = Ok t_opt
       /\ MainIO.Return (MainIO.AerResult [("10"%string, 1024%Z)])
          = MainIO.Return result
       /\ MainIO.extract_counts_from_result result (hardware_mode config)
          = MainIO.Return counts
       /\ MainIO.report counts t shots = MainIO.Return MainIO.SUCCESS.
Proof.
  assert (Hmain : MainIO.main
                    (example_world (Some (example_config 2 "10" 1024))
                       (MainIO.Return
                          (MainIO.AerResult [("10"%string, 1024%Z)])))
                  = MainIO.Return MainIO.SUCCESS)
    by (vm_compute; reflexivity).
  split; [exact Hmain|].
  exact (main_verdict_presupposes _ Hmain).
Defined.

(** On one line a Grover round turns the pair (target, other) into
    (- other, target): the squares of the two amplitudes stay at 1/2. *)
Lemma amplitudes_one_line (k : nat) :
  let ao := amplitudes 1 k in
  (fst (fst ao) * fst (fst ao) = / 2 /\ snd (fst ao) = 0
   /\ fst (snd ao) * fst (snd ao) = / 2 /\ snd (snd ao) = 0)%R.
Proof.
  cbv zeta. unfold amplitudes. induction k as [|k IH].
  - cbn [Nat.iter nat_rect fst snd pow]. rewrite Rmult_1_r, half_twice.
    repeat split; reflexivity.
  - change (Nat.iter (S k) (grover_round 1) ?x)
      with (grover_round 1 (Nat.iter k (grover_round 1) x)).
    destruct (Nat.iter k (grover_round 1) _) as [[a1 a2] [o1 o2]].
    cbn [fst snd] in IH. destruct IH as [Ha [-> [Ho ->]]].
    unfold grover_round, Copp, Cplus, Cscale. cbn [fst snd pow].
    repeat split; try field.
    + replace (- a1 + -2 * (/ (2 * 1) * (- a1 + (2 * 1 - 1) * o1)))%R
        with (- o1)%R by field.
      rewrite <- Ho. ring.
    + replace (o1 + -2 * (/ (2 * 1) * (- a1 + (2 * 1 - 1) * o1)))%R
        with a1 by field.
      exact Ha.
Qed.

(** X18: one qubit.  A configuration with [n_qubits = 1] and a
    one-character target passes the length test and, when the planner
    returns, [main] hands the backend the one-line circuit: H, the planned
    rounds of oracle and diffuser (each with its X without controls), the
    measurement.  Whatever the number of rounds, that circuit is measured in
    either basis state with probability 1/2: on one line the search is a
    coin flip. *)
Theorem main_one_qubit_coin_flip (w : MainIO.World) (config : MainIO.Config)
    (t : string) (shots t_opt : Z) :
  MainIO.load_configuration w = Some config ->
  MainIO.cfg_n_qubits config = Some 1%Z ->
  MainIO.cfg_target_state config = Some t ->
  MainIO.cfg_shots config = Some shots ->
  String.length t = 1%nat ->
  run (MainIO.libm_asin w) (calculate_optimal_iterations 1 1) = Ok t_opt ->
  exists qc psi,
    MainIO.main w
    = MainIO.and_then (MainIO.execute w (hardware_mode config) qc shots)
                      (after_backend config t shots)
    /\ qc = Spec.circuit 1 t (Z.to_nat t_opt)
    /\ state_before_measurement qc ket0 = Some psi
    /\ forall b, in_register 1 b -> probability psi b = (/ 2)%R.
Proof.
  intros Hload Hn Ht Hs Hlen Hopt.
  change (Some 1%Z) with (Some (Z.of_nat 1)) in Hn.
  change (calculate_optimal_iterations 1 1)
    with (calculate_optimal_iterations (Z.of_nat 1) 1) in Hopt.
  rewrite <- Hlen in Hn, Hopt.
  pose proof (main_until_backend w Hload Hn Ht Hs
                ltac:(rewrite Hlen; lia) Hopt) as Hmain.
  rewrite Hlen in Hmain.
  destruct (@circuit_state t 1 (Z.to_nat t_opt) ltac:(lia))
    as [psi [Hrun Hpsi]].
  exists (Spec.circuit 1 t (Z.to_nat t_opt)), psi.
  split; [exact Hmain|]. split; [reflexivity|]. split; [exact Hrun|].
  intros b Hb. unfold probability. rewrite (Hpsi b Hb).
  destruct (amplitudes_one_line (Z.to_nat t_opt)) as [Ha [Ha0 [Ho Ho0]]].
  destruct (encodes t 1 b).
  - rewrite Ha, Ha0. ring.
  - rewrite Ho, Ho0. ring.
Qed.

Lemma main_one_qubit_coin_flip_witness :
  exists qc psi,
    MainIO.main (example_world (Some (example_config 1 "1" 1024))
                   (MainIO.Return (MainIO.AerResult [("1"%string, 1024%Z)])))
    = MainIO.and_then
        (MainIO.execute
           (example_world (Some (example_config 1 "1" 1024))
              (MainIO.Return (MainIO.AerResult [("1"%string, 1024%Z)])))
           (hardware_mode (example_config 1 "1" 1024)) qc 1024)
        (after_backend (example_config 1 "1" 1024) "1" 1024)
    /\ qc = Spec.circuit 1 "1" (Z.to_nat 1)
    /\ state_before_measurement qc ket0 = Some psi
    /\ forall b, in_register 1 b -> probability psi b = (/ 2)%R.
Proof.
  exact (@main_one_qubit_coin_flip
           (example_world (Some (example_config 1 "1" 1024))
              (MainIO.Return (MainIO.AerResult [("1"%string, 1024%Z)])))
           (example_config 1 "1" 1024) "1" 1024 1
           eq_refl eq_refl eq_refl eq_refl eq_refl
           ltac:(vm_compute; reflexivity)).
Defined.


